(** * Chunked prosody analysis and emotion triggers of [main.py]

    A shallow embedding of [check_emotion_triggers],
    [analyze_audio_with_hume] and [_analyze_single_audio], with the
    properties of the windowing loop, of the per-window result handling
    and of the trigger evaluator.

    Python values are modelled as follows.
    - [int] is [Z]; [//] is [Z.div] (floor division, the divisor is
      positive everywhere it is used here).
    - [float] is the primitive binary64 type [float] of the kernel: [+],
      [/], [<] and [==] are the IEEE 754 operations Python uses.
    - [str] is [string]; a [dict] used as a mapping is a [gmap].
    - The external service and the file system are a [World] threaded
      through a state monad.

    The second part embeds [create_wav_header], [analyze_text_with_hume],
    [generate_emotion_summary], [send_notification], [create_memory],
    [save_emotion_memory] and the statistics that [handle_audio_stream]
    records, over the same values.
    - [bytes] is [list Byte.byte]; a [str] is the string of its UTF-8
      bytes.
    - A function that may raise returns a [Try].
    - A [dict] whose order of insertion matters is a list of pairs. *)

From Stdlib Require Import ZArith List Ascii Floats Permutation Sorted Lia.
From stdpp Require Import gmap strings list sorting pretty.
From Equations Require Import Equations.

Local Open Scope string_scope.
Local Open Scope list_scope.
Local Open Scope Z_scope.

(** ** Python floats *)

Module PyFloat.

(** [float(n)] for an [int] [n]: the nearest binary64 value, ties to
    even. *)
Definition of_int (n : Z) : float :=
  SF2Prim (binary_normalize prec emax n 0 false).

(** [bool(x)] for a float: [x != 0.0]; both zeros are falsy, a NaN is
    truthy. *)
Definition truthy (x : float) : bool := negb (PrimFloat.eqb x 0%float).

(** [ms / 1000.0] with [ms] an [int]. *)
Definition ms_to_seconds (ms : Z) : float :=
  PrimFloat.div (of_int ms) 1000%float.

End PyFloat.

(** ** [sorted(xs, key=..., reverse=True)]

    [list.sort] is a stable sort that compares keys with [<] only; with
    [reverse=True] it reverses the list, sorts it stably in ascending
    order and reverses the outcome, so that equal keys keep their
    original relative order.  The ascending pass is written here as a
    stable insertion sort. *)

Section PySorted.
Context {A : Type} (key : A -> float).

Fixpoint insert_asc (x : A) (l : list A) : list A :=
  match l with
  | [] => [x]
  | y :: l' =>
      if PrimFloat.ltb (key y) (key x) then y :: insert_asc x l'
      else x :: y :: l'
  end.

Fixpoint sort_asc (l : list A) : list A :=
  match l with
  | [] => []
  | x :: l' => insert_asc x (sort_asc l')
  end.

Definition sorted_reverse (l : list A) : list A :=
  rev (sort_asc (rev l)).

End PySorted.

(** ** Data model *)

(** An emotion as the service returns it: an object with [.name] and
    [.score]. *)
Record HumeEmotion := { he_name : string; he_score : float }.

(** A prosody prediction of the service.  [hp_begin] is
    [prediction.time.begin] when [hasattr(prediction.time, 'begin')],
    otherwise [None]; likewise [hp_end]. *)
Record HumePrediction := {
  hp_begin : option float;
  hp_end : option float;
  hp_emotions : list HumeEmotion
}.

(** What [socket.send_file] yields, classified the way
    [_analyze_single_audio] probes it. *)
Inductive StreamResult :=
| SendRaises (e : string)
    (* connecting or sending raised; [e] is [str(e)] *)
| StreamError (err : string)
    (* [hasattr(result, 'error')]; [err] is the text of [result.error] *)
| StreamNoProsody
    (* falsy result, no [prosody] attribute, or a falsy [prosody] *)
| StreamProsody (warning : option string)
                (preds : option (list HumePrediction)).
    (* [result.prosody.warning] when it exists, and
       [result.prosody.predictions], which may be [None] *)

(** [{"name": ..., "score": ...}] *)
Record Emotion := { name : string; score : float }.

(** [{"begin": ..., "end": ...}] *)
Record TimeRange := { t_begin : option float; t_end : option float }.

(** [pred_data]; [chunk_index] is the key that the chunked path adds. *)
Record Prediction := {
  time : TimeRange;
  emotions : list Emotion;
  top_3_emotions : list Emotion;
  chunk_index : option Z
}.

(** [{"num_chunks": ..., "total_duration_seconds": ...}] *)
Record DebugInfo := { dbg_num_chunks : Z; dbg_total_duration_seconds : float }.

(** The dictionary returned by the analysis functions; a key that a
    branch does not set is [None] ([false] for [chunked]).  [warning]
    holds [Some w] only for a warning text: the key with value [None] and
    the missing key are both [None]. *)
Record AnalysisResult := {
  success : bool;
  error : option string;
  predictions : list Prediction;
  total_predictions : option nat;
  warning : option string;
  total_duration_seconds : option float;
  num_chunks : option Z;
  chunked : bool;
  debug_info : option DebugInfo
}.

Definition failure (msg : string) : AnalysisResult :=
  {| success := false; error := Some msg; predictions := [];
     total_predictions := None; warning := None;
     total_duration_seconds := None; num_chunks := None;
     chunked := false; debug_info := None |}.

(** ** The world: environment, files and the external service *)

(** A decoded WAV file: one entry per millisecond of audio, which is the
    unit in which [pydub] measures ([len]) and slices segments. *)
Abbreviation AudioSegment := (list Z).

Inductive Event :=
| Slice (start_ms end_ms : Z)
    (* [audio[start_ms:end_ms]], the creation of a window *)
| Export (path : string) (chunk : AudioSegment)
    (* [chunk.export(path, format="wav")] *)
| SendFile (path : string) (content : option AudioSegment)
    (* [socket.send_file(path, ...)], with what the file held *)
| Unlink (path : string).
    (* [Path(path).unlink()] *)

Record World := {
  environ : gmap string string;
  files : gmap string AudioSegment;
  ncalls : nat;              (* number of [send_file] calls made so far *)
  trace : list Event
}.

Definition M (A : Type) : Type := World -> A * World.

Definition ret {A} (a : A) : M A := fun w => (a, w).

Definition bind {A B} (m : M A) (k : A -> M B) : M B :=
  fun w => let (a, w') := m w in k a w'.

Declare Scope py_scope.
Delimit Scope py_scope with py.
Notation "x <- m ;; k" := (bind m (fun x => k))
  (at level 100, m at next level, right associativity) : py_scope.
Notation "m ;;; k" := (bind m (fun _ => k))
  (at level 100, right associativity) : py_scope.

(** [os.getenv(k)] *)
Definition getenv (k : string) : M (option string) :=
  fun w => (environ w !! k, w).

(** [AudioSegment.from_wav(path)]; [None] when it raises. *)
Definition from_wav (path : string) : M (option AudioSegment) :=
  fun w => (files w !! path, w).

(** [chunk.export(path, format="wav")] *)
Definition export (chunk : AudioSegment) (path : string) : M unit :=
  fun w => (tt, {| environ := environ w; files := <[path := chunk]> (files w);
                   ncalls := ncalls w;
                   trace := trace w ++ [Export path chunk] |}).

(** [if Path(f).exists(): Path(f).unlink()] *)
Definition unlink_if_exists (path : string) : M unit :=
  fun w =>
    match files w !! path with
    | Some _ =>
        (tt, {| environ := environ w; files := delete path (files w);
                ncalls := ncalls w; trace := trace w ++ [Unlink path] |})
    | None => (tt, w)
    end.

Section Analysis.

(** The service: the answer to the [n]-th [send_file] call (counted
    from 0) of a run.  Every behaviour of the service on a given run is
    such a function. *)
Variable hume : nat -> StreamResult.

Definition send_file (path : string) : M StreamResult :=
  fun w => (hume (ncalls w),
            {| environ := environ w; files := files w;
               ncalls := S (ncalls w);
               trace := trace w ++ [SendFile path (files w !! path)] |}).

Definition emotion_dict (e : HumeEmotion) : Emotion :=
  {| name := he_name e; score := he_score e |}.

(** The body of [for prediction in prosody_preds]. *)
Definition pred_data (prediction : HumePrediction) : Prediction :=
  let sorted_emotions := sorted_reverse he_score (hp_emotions prediction) in
  {| time := {| t_begin := hp_begin prediction; t_end := hp_end prediction |};
     emotions := map emotion_dict sorted_emotions;
     top_3_emotions := map emotion_dict (take 3 sorted_emotions);
     chunk_index := None |}.

(** [if hasattr(result.prosody, 'warning') and result.prosody.warning] *)
Definition warning_msg_of (warning : option string) : option string :=
  match warning with
  | Some w => if decide (w = "") then None else Some w
  | None => None
  end.

(** What [_analyze_single_audio] does with the answer of the service. *)
Definition classify (result : StreamResult) : AnalysisResult :=
  match result with
  | SendRaises e => failure e
  | StreamError err => failure ("Hume API error: " +:+ err)
  | StreamNoProsody =>
      failure "No prosody predictions returned from Hume API"
  | StreamProsody warning prosody_preds =>
      let warning_msg := warning_msg_of warning in
      match prosody_preds with
      | None | Some [] =>
          let error_msg := "No speech detected in audio" in
          let error_msg :=
            match warning_msg with
            | Some w => error_msg +:+ " (Hume: " +:+ w +:+ ")"
            | None => error_msg
            end in
          {| success := false; error := Some error_msg; predictions := [];
             total_predictions := None; warning := warning_msg;
             total_duration_seconds := None; num_chunks := None;
             chunked := false; debug_info := None |}
      | Some prosody_preds =>
          let predictions := map pred_data prosody_preds in
          {| success := true; error := None; predictions := predictions;
             total_predictions := Some (length predictions);
             warning := None;
             total_duration_seconds := None; num_chunks := None;
             chunked := false; debug_info := None |}
      end
  end.

Definition _analyze_single_audio (wav_file_path : string)
  : M AnalysisResult :=
  (result <- send_file wav_file_path ;;
   ret (classify result))%py.

End Analysis.

(** ** [range(start, stop, step)] for a positive step

    The values [i = start; while i < stop: yield i; i += step].  A step
    that is not positive yields nothing here ([range] raises for 0 and
    counts down for a negative step; the analysis only uses 4500). *)

Equations? range_up (i stop step : Z) : list Z
  by wf (Z.to_nat (stop - i)) lt :=
  range_up i stop step with decide (0 < step /\ i < stop) => {
    | left _ := i :: range_up (i + step) stop step;
    | right _ := [] }.
Proof. lia. Qed.

(** ** [analyze_audio_with_hume] *)

Definition MAX_CHUNK_MS : Z := 4500.

(** [audio[start_ms:end_ms]] for [0 <= start_ms]. *)
Definition slice (audio : AudioSegment) (start_ms end_ms : Z) : AudioSegment :=
  take (Z.to_nat (end_ms - start_ms)) (drop (Z.to_nat start_ms) audio).

Definition slice_audio (audio : AudioSegment) (start_ms end_ms : Z)
  : M AudioSegment :=
  fun w => (slice audio start_ms end_ms,
            {| environ := environ w; files := files w; ncalls := ncalls w;
               trace := trace w ++ [Slice start_ms end_ms] |}).

(** [f"{wav_file_path}.chunk{i // MAX_CHUNK_MS}.wav"] *)
Definition chunk_path_of (wav_file_path : string) (i : Z) : string :=
  wav_file_path +:+ ".chunk" +:+ pretty (i / MAX_CHUNK_MS) +:+ ".wav".

(** [t + (start_ms / 1000.0) if t else None], which Python reads as
    [(t + start_ms / 1000.0) if t else None]. *)
Definition shift (t : option float) (start_ms : Z) : option float :=
  match t with
  | Some x =>
      if PyFloat.truthy x
      then Some (PrimFloat.add x (PyFloat.ms_to_seconds start_ms))
      else None
  | None => None
  end.

(** The three assignments made to each [pred] of a successful chunk. *)
Definition adjust (start_ms : Z) (pred : Prediction) : Prediction :=
  {| time := {| t_begin := shift (t_begin (time pred)) start_ms;
                t_end := shift (t_end (time pred)) start_ms |};
     emotions := emotions pred;
     top_3_emotions := top_3_emotions pred;
     chunk_index := Some (start_ms / MAX_CHUNK_MS) |}.

(** What the caller of [analyze_audio_with_hume] observes. *)
Inductive Outcome :=
| Raise (e : string)
| Return (r : AnalysisResult).

(** [for x in l: s = body(s, x)] *)
Fixpoint for_each {A S : Type} (body : S -> A -> M S) (l : list A) (s : S)
  : M S :=
  match l with
  | [] => ret s
  | x :: l' => (s' <- body s x ;; for_each body l' s')%py
  end.

Section Chunked.

Variable hume : nat -> StreamResult.

(** One turn of the loop, on the state [(chunks_data, chunk_files)].
    The path joins [chunk_files] as soon as the file is written; nothing
    reads the list before the loop ends. *)
Definition chunk_step (audio : AudioSegment) (wav_file_path : string)
    (duration_ms : Z) (st : list Prediction * list string) (i : Z)
  : M (list Prediction * list string) :=
  let start_ms := i in
  let end_ms := Z.min (i + MAX_CHUNK_MS) duration_ms in
  let chunk_path := chunk_path_of wav_file_path i in
  (chunk <- slice_audio audio start_ms end_ms ;;
   export chunk chunk_path ;;;
   chunk_result <- _analyze_single_audio hume chunk_path ;;
   if success chunk_result
   then ret (st.1 ++ map (adjust start_ms) (predictions chunk_result),
             st.2 ++ [chunk_path])
   else ret (st.1, st.2 ++ [chunk_path]))%py.

(** The [finally] clause. *)
Definition cleanup (chunk_files : list string) : M unit :=
  for_each (fun _ chunk_file => unlink_if_exists chunk_file) chunk_files tt.

Definition combine (chunks_data : list Prediction) (duration_seconds : float)
    (num_chunks : Z) : AnalysisResult :=
  match chunks_data with
  | _ :: _ =>
      {| success := true; error := None; predictions := chunks_data;
         total_predictions := Some (length chunks_data);
         warning := None;
         total_duration_seconds := Some duration_seconds;
         num_chunks := Some num_chunks; chunked := true;
         debug_info := None |}
  | [] =>
      {| success := false; error := Some "All chunks failed to analyze";
         predictions := []; total_predictions := None; warning := None;
         total_duration_seconds := None; num_chunks := None;
         chunked := false;
         debug_info :=
           Some {| dbg_num_chunks := num_chunks;
                   dbg_total_duration_seconds := duration_seconds |} |}
  end.

Definition analyze_chunked (audio : AudioSegment) (wav_file_path : string)
  : M AnalysisResult :=
  let duration_ms := Z.of_nat (length audio) in
  let duration_seconds := PyFloat.ms_to_seconds duration_ms in
  let num_chunks := (duration_ms + MAX_CHUNK_MS - 1) / MAX_CHUNK_MS in
  (st <- for_each (chunk_step audio wav_file_path duration_ms)
                  (range_up 0 duration_ms MAX_CHUNK_MS) ([], []) ;;
   cleanup st.2 ;;;
   ret (combine st.1 duration_seconds num_chunks))%py.

Definition analyze_audio_with_hume (wav_file_path : string) : M Outcome :=
  (hume_api_key <- getenv "HUME_API_KEY" ;;
   match hume_api_key with
   | None | Some "" =>
       ret (Raise "HUME_API_KEY environment variable not set")
   | Some _ =>
       audio <- from_wav wav_file_path ;;
       match audio with
       | None =>
           (* [except Exception as e]: [str(e)] of the failed open *)
           ret (Return (failure ("[Errno 2] No such file or directory: '"
                                 +:+ wav_file_path +:+ "'")))
       | Some audio =>
           let duration_ms := Z.of_nat (length audio) in
           if decide (duration_ms <= 5000)
           then r <- _analyze_single_audio hume wav_file_path ;;
                ret (Return r)
           else r <- analyze_chunked audio wav_file_path ;;
                ret (Return r)
       end
   end)%py.

End Chunked.

(** ** [check_emotion_triggers] *)

(** An entry of [triggered_emotions]; [te_time] is
    [prediction.get('time')]. *)
Record TriggeredEmotion := {
  te_name : string;
  te_score : float;
  te_time : option TimeRange
}.

Record TriggerResult := {
  triggered : bool;
  tr_emotions : list TriggeredEmotion;
  total_triggers : nat
}.

(** [not emotion_filters]: [None] or an empty dict. *)
Definition no_filters (emotion_filters : option (gmap string float)) : bool :=
  match emotion_filters with
  | None => true
  | Some m => bool_decide (m = ∅)
  end.

(** [emotion_name in emotion_filters], reached with a non-empty dict. *)
Definition in_filters (emotion_name : string)
    (emotion_filters : option (gmap string float)) : bool :=
  match emotion_filters with
  | None => false
  | Some m => bool_decide (is_Some (m !! emotion_name))
  end.

Definition triggered_entry (prediction : Prediction) (emotion : Emotion)
  : TriggeredEmotion :=
  {| te_name := name emotion; te_score := score emotion;
     te_time := Some (time prediction) |}.

(** The body of the inner loop, on the accumulator [triggered_emotions]. *)
Definition trigger_step (emotion_filters : option (gmap string float))
    (prediction : Prediction) (triggered_emotions : list TriggeredEmotion)
    (emotion : Emotion) : list TriggeredEmotion :=
  if no_filters emotion_filters
  then triggered_emotions ++ [triggered_entry prediction emotion]
  else if in_filters (name emotion) emotion_filters
       then triggered_emotions ++ [triggered_entry prediction emotion]
       else triggered_emotions.

Definition check_emotion_triggers (predictions : list Prediction)
    (emotion_filters : option (gmap string float)) : TriggerResult :=
  let triggered_emotions :=
    foldl (fun acc prediction =>
             foldl (trigger_step emotion_filters prediction) acc
                   (emotions prediction))
          [] predictions in
  {| triggered := bool_decide (0 < length triggered_emotions)%nat;
     tr_emotions := triggered_emotions;
     total_triggers := length triggered_emotions |}.

(** ** Vocabulary of the statements *)

Section Orders.
Context {A : Type} (key : A -> float).

(** [a] may stand before [b] in an ascending, resp. descending, list. *)
Definition ascending (a b : A) : Prop := PrimFloat.leb (key a) (key b) = true.
Definition descending (a b : A) : Prop := PrimFloat.leb (key b) (key a) = true.

(** No key is a NaN (a score is a number of [0, 1]). *)
Definition no_nan (l : list A) : Prop :=
  Forall (fun a => PrimFloat.is_nan (key a) = false) l.

End Orders.

(** What the window starting at [i] ms adds to [chunks_data] when the
    service answers [result]. *)
Definition window_predictions (result : StreamResult) (i : Z)
  : list Prediction :=
  let chunk_result := classify result in
  if success chunk_result
  then map (adjust i) (predictions chunk_result)
  else [].

(** The number of turns of the loop. *)
Definition window_count (duration_ms : Z) : nat :=
  length (range_up 0 duration_ms MAX_CHUNK_MS).

Definition window_start (k : nat) : Z := MAX_CHUNK_MS * Z.of_nat k.

(** The operations of one turn of the loop, in the order they happen. *)
Definition window_events (audio : AudioSegment) (wav_file_path : string)
    (i : Z) : list Event :=
  let end_ms := Z.min (i + MAX_CHUNK_MS) (Z.of_nat (length audio)) in
  let chunk := slice audio i end_ms in
  [Slice i end_ms;
   Export (chunk_path_of wav_file_path i) chunk;
   SendFile (chunk_path_of wav_file_path i) (Some chunk)].

(** The windows a run created, read off its trace. *)
Definition windows_of (t : list Event) : list (Z * Z) :=
  omap (fun e => match e with Slice s e => Some (s, e) | _ => None end) t.

(** The files a run sent to the service, in the order of the calls. *)
Definition sent_of (t : list Event) : list (string * option AudioSegment) :=
  omap (fun e => match e with SendFile p c => Some (p, c) | _ => None end) t.

(** [chunks_data] after the loop went through [starts], the first call
    being call number [n]. *)
Fixpoint chunks_from (hume : nat -> StreamResult) (n : nat) (starts : list Z)
  : list Prediction :=
  match starts with
  | [] => []
  | i :: starts' =>
      window_predictions (hume n) i ++ chunks_from hume (S n) starts'
  end.

(** The configuration is usable: [HUME_API_KEY] is set and not empty. *)
Definition configured (w : World) : Prop :=
  exists key, environ w !! "HUME_API_KEY" = Some key /\ key <> "".

(** An emotion is kept when there is no filter, or when its name is a key
    of the filters. *)
Definition kept (emotion_filters : option (gmap string float)) (e : Emotion)
  : bool :=
  no_filters emotion_filters || in_filters (name e) emotion_filters.

(** ** Sample inputs *)

Module Sample.

Definition buffer (ms : Z) : AudioSegment := repeat 0 (Z.to_nat ms).

(** A configured process that holds one recording, [rec.wav]. *)
Definition world (audio : AudioSegment) : World :=
  {| environ := {[ "HUME_API_KEY" := "key" ]};
     files := {[ "rec.wav" := audio ]};
     ncalls := 0;
     trace := [] |}.

Definition scores : list HumeEmotion :=
  [ {| he_name := "Joy"; he_score := 0.25 |};
    {| he_name := "Anger"; he_score := 0.75 |};
    {| he_name := "Calm"; he_score := 0.25 |} ].

Definition segment (b e : float) : HumePrediction :=
  {| hp_begin := Some b; hp_end := Some e; hp_emotions := scores |}.

(** The service finds one speech segment, from [b] to [e] seconds. *)
Definition speech (b e : float) : StreamResult :=
  StreamProsody None (Some [segment b e]).

(** The service finds no speech and says so. *)
Definition silence : StreamResult :=
  StreamProsody (Some "No speech detected.") (Some []).

(** Four windows, the third of which (number 2) fails. *)
Definition third_fails (n : nat) : StreamResult :=
  if decide (n = 2%nat) then StreamNoProsody else speech 0.5 1.

End Sample.

(** ** Exceptions and results of functions that may raise *)

Inductive Exception :=
| OverflowError (msg : string)
| ZeroDivisionError (msg : string)
| ValueError (msg : string).

Inductive Try (A : Type) :=
| Returns (a : A)
| Throws (e : Exception).
Arguments Returns {A} a.
Arguments Throws {A} e.

Definition try_bind {A B} (m : Try A) (k : A -> Try B) : Try B :=
  match m with
  | Returns a => k a
  | Throws e => Throws e
  end.

Notation "x <-- m ;; k" := (try_bind m (fun x => k))
  (at level 100, m at next level, right associativity) : py_scope.

(** ** [create_wav_header] *)

Module Wav.

(** A byte of value [z mod 256]. *)
Definition byte_of (z : Z) : Byte.byte :=
  default Byte.x00 (Byte.of_N (Z.to_N (z mod 256))).

(** The [length] low bytes of [n], least significant first. *)
Fixpoint le_bytes (n : Z) (length : nat) : list Byte.byte :=
  match length with
  | O => []
  | S k => byte_of n :: le_bytes (n / 256) k
  end.

(** [n.to_bytes(length, 'little')] *)
Definition to_bytes (n : Z) (length : nat) : Try (list Byte.byte) :=
  if decide (n < 0)
  then Throws (OverflowError "can't convert negative int to unsigned")
  else if decide (256 ^ Z.of_nat length <= n)
       then Throws (OverflowError "int too big to convert")
       else Returns (le_bytes n length).

(** [int.from_bytes(bs, 'little')], the reader of the fields. *)
Fixpoint from_bytes (bs : list Byte.byte) : Z :=
  match bs with
  | [] => 0
  | b :: bs' => Z.of_N (Byte.to_N b) + 256 * from_bytes bs'
  end.

(** [bs[start:start + length]] *)
Definition field (bs : list Byte.byte) (start length : nat) : list Byte.byte :=
  take length (drop start bs).

Definition create_wav_header (sample_rate data_size : Z) : Try (list Byte.byte) :=
  let num_channels := 1 in
  let bits_per_sample := 16 in
  let byte_rate := sample_rate * num_channels * bits_per_sample / 8 in
  let block_align := num_channels * bits_per_sample / 8 in
  (let header := String.list_byte_of_string "RIFF" in
   riff_size <-- to_bytes (36 + data_size) 4 ;;
   let header := header ++ riff_size in
   let header := header ++ String.list_byte_of_string "WAVE" in
   let header := header ++ String.list_byte_of_string "fmt " in
   subchunk_size <-- to_bytes 16 4 ;;
   let header := header ++ subchunk_size in
   audio_format <-- to_bytes 1 2 ;;
   let header := header ++ audio_format in
   channels <-- to_bytes num_channels 2 ;;
   let header := header ++ channels in
   rate <-- to_bytes sample_rate 4 ;;
   let header := header ++ rate in
   bytes_per_second <-- to_bytes byte_rate 4 ;;
   let header := header ++ bytes_per_second in
   align <-- to_bytes block_align 2 ;;
   let header := header ++ align in
   bits <-- to_bytes bits_per_sample 2 ;;
   let header := header ++ bits in
   let header := header ++ String.list_byte_of_string "data" in
   size <-- to_bytes data_size 4 ;;
   let header := header ++ size in
   Returns header)%py.

(** [wav_header + audio_data], as [handle_audio_stream] builds the file
    it stores. *)
Definition wav_data (sample_rate : Z) (audio_data : list Byte.byte)
  : Try (list Byte.byte) :=
  (wav_header <-- create_wav_header sample_rate (Z.of_nat (length audio_data)) ;;
   Returns (wav_header ++ audio_data))%py.

End Wav.

(** ** [analyze_text_with_hume] *)

Module Text.

(** [prediction.position] as the code probes it: the attribute may be
    missing ([hasattr] is false), hold [None], or hold a range. *)
Inductive Position :=
| NoPosition
| PositionNone
| PositionAt (begin_ end_ : Z).

(** A language prediction of the service; [lp_text] is [None] when the
    attribute is missing. *)
Record LanguagePrediction := {
  lp_text : option string;
  lp_position : Position;
  lp_emotions : list HumeEmotion
}.

(** What [socket.send_text] yields, classified the way the function
    probes it. *)
Inductive LanguageResult :=
| SendRaises (e : string)
    (* importing, connecting or sending raised; [e] is [str(e)] *)
| StreamError (err : string)
    (* [hasattr(result, 'error')] *)
| NoLanguage
    (* falsy result, no [language] attribute, or a falsy [language] *)
| Language (preds : option (list LanguagePrediction)).
    (* [result.language.predictions], which may be [None] *)

(** [{"begin": ..., "end": ...}] *)
Record PositionRange := { begin : option Z; end_ : option Z }.

(** [pred_data] *)
Record Prediction := {
  text : option string;
  position : PositionRange;
  emotions : list Emotion;
  top_3_emotions : list Emotion
}.

Record Result := {
  success : bool;
  error : option string;
  predictions : list Prediction;
  total_predictions : option nat;
  analyzed_text : option string
}.

Definition failure (msg : string) : Result :=
  {| success := false; error := Some msg; predictions := [];
     total_predictions := None; analyzed_text := None |}.

(** The body of [for prediction in lang_preds]; reading [.begin] of a
    position that is [None] raises [AttributeError], whose text is the
    error. *)
Definition pred_data (prediction : LanguagePrediction) : string + Prediction :=
  let sorted_emotions := sorted_reverse he_score (lp_emotions prediction) in
  match lp_position prediction with
  | PositionNone => inl "'NoneType' object has no attribute 'begin'"
  | pos =>
      inr {| text := lp_text prediction;
             position :=
               match pos with
               | PositionAt b e => {| begin := Some b; end_ := Some e |}
               | _ => {| begin := None; end_ := None |}
               end;
             emotions := map emotion_dict sorted_emotions;
             top_3_emotions := map emotion_dict (take 3 sorted_emotions) |}
  end.

(** The loop that fills [predictions]; it stops at the first prediction
    that raises. *)
Fixpoint collect (lang_preds : list LanguagePrediction)
  : string + list Prediction :=
  match lang_preds with
  | [] => inr []
  | prediction :: rest =>
      match pred_data prediction with
      | inl e => inl e
      | inr pd =>
          match collect rest with
          | inl e => inl e
          | inr pds => inr (pd :: pds)
          end
      end
  end.

(** What the function does with the answer of the service, inside its
    [try]; an exception is turned into a failure by the [except]
    clause. *)
Definition classify (text : string) (result : LanguageResult) : Result :=
  match result with
  | SendRaises e => failure e
  | StreamError err => failure ("Hume API error: " +:+ err)
  | NoLanguage => failure "No language predictions returned from Hume API"
  | Language None =>
      (* [len(lang_preds)] in the progress message raises [TypeError] *)
      failure "object of type 'NoneType' has no len()"
  | Language (Some lang_preds) =>
      match collect lang_preds with
      | inl e => failure e
      | inr predictions =>
          {| success := true; error := None; predictions := predictions;
             total_predictions := Some (length predictions);
             analyzed_text := Some text |}
      end
  end.

(** [send_text] is the service: the answer to the one call the function
    makes. *)
Definition analyze_text_with_hume (environ : gmap string string)
    (send_text : string -> LanguageResult) (text : string) : Try Result :=
  match environ !! "HUME_API_KEY" with
  | None | Some "" =>
      Throws (ValueError "HUME_API_KEY environment variable not set")
  | Some _ => Returns (classify text (send_text text))
  end.

End Text.

(** ** [sorted(xs, key=..., reverse=True)] with integer keys

    The same stable sort as [sorted_reverse], for keys that are [int]. *)

Section PySortedInt.
Context {A : Type} (key : A -> Z).

Fixpoint insert_asc_int (x : A) (l : list A) : list A :=
  match l with
  | [] => [x]
  | y :: l' =>
      if key y <? key x then y :: insert_asc_int x l'
      else x :: y :: l'
  end.

Fixpoint sort_asc_int (l : list A) : list A :=
  match l with
  | [] => []
  | x :: l' => insert_asc_int x (sort_asc_int l')
  end.

Definition sorted_reverse_int (l : list A) : list A :=
  rev (sort_asc_int (rev l)).

End PySortedInt.

(** ** Formatting a float with a fixed number of decimals *)

Module PyFormat.

(** The integer nearest to [m * 2^e * 10^digits], ties to even: the
    decimal conversion of a float is correctly rounded. *)
Definition scaled (digits : nat) (m : positive) (e : Z) : Z :=
  let num := Z.pos m * 10 ^ Z.of_nat digits in
  if 0 <=? e then num * 2 ^ e
  else
    let den := 2 ^ (- e) in
    let q := num / den in
    let r := num mod den in
    if 2 * r <? den then q
    else if den <? 2 * r then q + 1
    else if Z.even q then q else q + 1.

(** [n] written with [width] digits, zeros in front. *)
Definition zero_padded (width : nat) (n : Z) : string :=
  let s := pretty n in
  String.concat "" (replicate (width - String.length s) "0") +:+ s.

(** The digits of [n / 10^digits] with [digits] decimals. *)
Definition decimal (digits : nat) (n : Z) : string :=
  let p := 10 ^ Z.of_nat digits in
  match digits with
  | O => pretty n
  | _ => pretty (n / p) +:+ "." +:+ zero_padded digits (n mod p)
  end.

(** [f"{x:.<digits>f}"] *)
Definition fixed (digits : nat) (x : float) : string :=
  match Prim2SF x with
  | S754_nan => "nan"
  | S754_infinity s => if s then "-inf" else "inf"
  | S754_zero s => (if s then "-" else "") +:+ decimal digits 0
  | S754_finite s m e =>
      (if s then "-" else "") +:+ decimal digits (scaled digits m e)
  end.

(** The float nearest to [a / b], ties to even, for [b] other than 0.
    The quotient of the two integers is rounded once, whatever their
    size: the operands are not converted to floats first. *)
Definition nearest_quotient (a b : Z) : float :=
  let negative := xorb (a <? 0) (b <? 0) in
  match Z.abs a, Z.abs b with
  | Z.pos ma, Z.pos mb =>
      let '(m, e, l) := SFdiv_core_binary prec emax (Z.pos ma) 0 (Z.pos mb) 0 in
      SF2Prim (binary_round_aux prec emax negative m e l)
  | _, _ => SF2Prim (S754_zero negative)
  end.

(** The least magnitude that rounds to 2^1024, which no float holds. *)
Definition overflow_threshold : Z := 2 ^ 1024 - 2 ^ 970.

(** [a / b] for two [int]: [ZeroDivisionError] when [b] is 0,
    [OverflowError] when the rounded quotient is too large for a
    float. *)
Definition true_div (a b : Z) : Try float :=
  if decide (b = 0) then Throws (ZeroDivisionError "division by zero")
  else if decide (overflow_threshold * Z.abs b <= Z.abs a)
       then Throws (OverflowError
                      "integer division result too large for a float")
       else Returns (nearest_quotient a b).

(** [sep.join(parts)] *)
Definition join (sep : string) (parts : list string) : string :=
  String.concat sep parts.

End PyFormat.

(** ** The statistics of the process and [generate_emotion_summary] *)

Module Stats.

(** An entry of [recent_notifications]. *)
Record Notification := { timestamp : string; uid : string; message : string }.

(** [audio_stats].  [emotion_counts] is a [dict]: its entries are kept
    in the order in which the keys were inserted, which is the order
    [.items()] and [.values()] follow. *)
Record AudioStats := {
  total_requests : Z;
  successful_analyses : Z;
  failed_analyses : Z;
  last_request_time : option string;
  last_uid : option string;
  recent_emotions : list string;
  emotion_counts : list (string * Z);
  recent_notifications : list Notification
}.

(** An entry of [emotions_data]. *)
Record SummaryEmotion := { name : string; score : float; count : Z }.

Record Summary := {
  success : bool;
  error : option string;
  summary : option string;
  emotions : list SummaryEmotion;
  total_detections : option Z
}.

(** [sum(xs)] *)
Definition sum (xs : list Z) : Z := foldl Z.add 0 xs.

(** One turn of [for emotion, count in sorted_emotions]: the text added
    to [emotion_list] and the entry added to [emotions_data]. *)
Definition summary_row (total_count : Z) (item : string * Z)
  : Try (string * SummaryEmotion) :=
  let '(emotion, count) := item in
  (ratio <-- PyFormat.true_div count total_count ;;
   let percentage := PrimFloat.mul ratio 100 in
   Returns (emotion +:+ " (" +:+ PyFormat.fixed 1 percentage +:+ "%)",
            {| name := emotion;
               score := PrimFloat.div percentage 100;
               count := count |}))%py.

Fixpoint summary_rows (total_count : Z) (items : list (string * Z))
  : Try (list (string * SummaryEmotion)) :=
  match items with
  | [] => Returns []
  | item :: rest =>
      (row <-- summary_row total_count item ;;
       rows <-- summary_rows total_count rest ;;
       Returns (row :: rows))%py
  end.

Definition generate_emotion_summary (audio_stats : AudioStats) : Try Summary :=
  match emotion_counts audio_stats with
  | [] =>
      Returns {| success := false; error := Some "No emotion data available";
                 summary := None; emotions := []; total_detections := None |}
  | counts =>
      let sorted_emotions := take 5 (sorted_reverse_int snd counts) in
      let total_count := sum (map snd counts) in
      (rows <-- summary_rows total_count sorted_emotions ;;
       let emotion_list := map fst rows in
       let emotions_data := map snd rows in
       let summary_text :=
         "📊 Emotion Summary - Top 5 emotions detected: "
         +:+ PyFormat.join ", " emotion_list in
       Returns {| success := true; error := None;
                  summary := Some summary_text;
                  emotions := emotions_data;
                  total_detections := Some total_count |})%py
  end.

End Stats.

(** ** The statistics that [handle_audio_stream] records *)

(** [audio_stats] when the process starts and after [reset_stats]. *)
Definition initial_stats : Stats.AudioStats :=
  {| Stats.total_requests := 0; Stats.successful_analyses := 0;
     Stats.failed_analyses := 0; Stats.last_request_time := None;
     Stats.last_uid := None; Stats.recent_emotions := [];
     Stats.emotion_counts := []; Stats.recent_notifications := [] |}.

(** [f"{e['name']} ({e['score']:.2f})"] *)
Definition recent_label (e : Emotion) : string :=
  name e +:+ " (" +:+ PyFormat.fixed 2 (score e) +:+ ")".

(** [if emotion_name not in counts: counts[emotion_name] = 0] followed
    by [counts[emotion_name] += 1]; a new key goes to the end. *)
Fixpoint count_emotion (emotion_name : string) (counts : list (string * Z))
  : list (string * Z) :=
  match counts with
  | [] => [(emotion_name, 0 + 1)]
  | (k, v) :: rest =>
      if decide (k = emotion_name) then (k, v + 1) :: rest
      else (k, v) :: count_emotion emotion_name rest
  end.

(** The prediction at which [for pred in hume_results['predictions']]
    reaches its [break]: the first one whose [top_3_emotions] is not
    empty. *)
Fixpoint first_with_emotions (predictions : list Prediction)
  : option Prediction :=
  match predictions with
  | [] => None
  | pred :: rest =>
      match top_3_emotions pred with
      | [] => first_with_emotions rest
      | _ => Some pred
      end
  end.

(** The update of the statistics that [handle_audio_stream] makes with
    the result that [analyze_audio_with_hume] returned. *)
Definition record_analysis (hume_results : AnalysisResult)
    (audio_stats : Stats.AudioStats) : Stats.AudioStats :=
  if success hume_results
  then
    let '(recent_emotions, emotion_counts) :=
      match first_with_emotions (predictions hume_results) with
      | Some pred =>
          (map recent_label (top_3_emotions pred),
           foldl (fun counts emotion => count_emotion (name emotion) counts)
                 (Stats.emotion_counts audio_stats) (top_3_emotions pred))
      | None => ([], Stats.emotion_counts audio_stats)
      end in
    {| Stats.total_requests := Stats.total_requests audio_stats;
       Stats.successful_analyses := Stats.successful_analyses audio_stats + 1;
       Stats.failed_analyses := Stats.failed_analyses audio_stats;
       Stats.last_request_time := Stats.last_request_time audio_stats;
       Stats.last_uid := Stats.last_uid audio_stats;
       Stats.recent_emotions :=
         match recent_emotions with
         | [] => Stats.recent_emotions audio_stats
         | _ => recent_emotions
         end;
       Stats.emotion_counts := emotion_counts;
       Stats.recent_notifications := Stats.recent_notifications audio_stats |}
  else
    {| Stats.total_requests := Stats.total_requests audio_stats;
       Stats.successful_analyses := Stats.successful_analyses audio_stats;
       Stats.failed_analyses := Stats.failed_analyses audio_stats + 1;
       Stats.last_request_time := Stats.last_request_time audio_stats;
       Stats.last_uid := Stats.last_uid audio_stats;
       Stats.recent_emotions := Stats.recent_emotions audio_stats;
       Stats.emotion_counts := Stats.emotion_counts audio_stats;
       Stats.recent_notifications := Stats.recent_notifications audio_stats |}.

(** The statistics after a series of analyses, the first one first. *)
Definition recorded (results : list AnalysisResult) : Stats.AudioStats :=
  foldl (fun audio_stats hume_results => record_analysis hume_results audio_stats)
        initial_stats results.

(** ** [urllib.parse.quote] *)

Module Url.

(** Letters, digits and [_.-~] are never quoted. *)
Definition always_safe (c : ascii) : bool :=
  let n := N_of_ascii c in
  ((65 <=? n) && (n <=? 90) || (97 <=? n) && (n <=? 122)
   || (48 <=? n) && (n <=? 57))%N
  || bool_decide (c ∈ ["_"; "."; "-"; "~"]%char).

Definition hex_digit (n : N) : ascii :=
  ascii_of_N (if (n <? 10)%N then 48 + n else 55 + n)%N.

(** One byte of the UTF-8 text, kept or written [%XX]. *)
Definition quote_byte (c : ascii) : string :=
  if always_safe c || bool_decide (c = "/"%char)
  then String c ""
  else
    let n := N_of_ascii c in
    String "%" (String (hex_digit (n / 16)) (String (hex_digit (n mod 16)) "")).

(** [quote(s)], with the default [safe='/']. *)
Fixpoint quote (s : string) : string :=
  match s with
  | EmptyString => ""
  | String c s' => quote_byte c +:+ quote s'
  end.

End Url.

(** ** Notifications and memories *)

Module Omi.

(** What [client.post] yields. *)
Inductive HttpReply :=
| PostRaises (e : string)
| Response (status_code : Z) (text : string).

(** An entry of [memory_data["memories"]]. *)
Record Memory := { content : string; tags : list string }.

Record MemoryData := {
  memories : list Memory;
  text : string;
  text_source : string;
  text_source_spec : string
}.

(** A request handed to [client.post]. *)
Record Request := {
  url : string;
  headers : list (string * string);
  json : option MemoryData
}.

(** The process: its environment, its statistics, the clock, read as
    [datetime.now(timezone.utc).strftime("%Y-%m-%d %H:%M:%S UTC")], and
    the requests posted so far. *)
Record Server := {
  environ : gmap string string;
  audio_stats : Stats.AudioStats;
  utc_now : string;
  posts : list Request
}.

(** The dictionaries these functions return. *)
Record Result := {
  success : bool;
  error : option string;
  message : option string
}.

Definition failed (msg : string) : Result :=
  {| success := false; error := Some msg; message := None |}.

Definition done_ (msg : string) : Result :=
  {| success := true; error := None; message := Some msg |}.

(** [os.getenv(k)] when it is truthy. *)
Definition getenv_truthy (s : Server) (k : string) : option string :=
  match environ s !! k with
  | Some "" | None => None
  | Some v => Some v
  end.

Definition with_post (s : Server) (r : Request) : Server :=
  {| environ := environ s; audio_stats := audio_stats s;
     utc_now := utc_now s; posts := posts s ++ [r] |}.

(** [audio_stats["recent_notifications"].insert(0, n)] followed by
    [audio_stats["recent_notifications"] = ...[:10]]. *)
Definition record_notification (n : Stats.Notification) (s : Server) : Server :=
  let st := audio_stats s in
  {| environ := environ s;
     audio_stats :=
       {| Stats.total_requests := Stats.total_requests st;
          Stats.successful_analyses := Stats.successful_analyses st;
          Stats.failed_analyses := Stats.failed_analyses st;
          Stats.last_request_time := Stats.last_request_time st;
          Stats.last_uid := Stats.last_uid st;
          Stats.recent_emotions := Stats.recent_emotions st;
          Stats.emotion_counts := Stats.emotion_counts st;
          Stats.recent_notifications :=
            take 10 (n :: Stats.recent_notifications st) |};
     utc_now := utc_now s; posts := posts s |}.

(** [f"API error: {response.status_code} - {response.text}"] *)
Definition api_error (status_code : Z) (text : string) : string :=
  "API error: " +:+ pretty status_code +:+ " - " +:+ text.

Section Service.

(** The remote service: the answer to the [n]-th request (counted from
    0) that the process posts. *)
Variable omi : nat -> HttpReply.

(** [str.lower], a function of the standard library. *)
Variable lower : string -> string.

Definition send_notification (uid message : string) (s : Server)
  : Result * Server :=
  match getenv_truthy s "OMI_APP_ID", getenv_truthy s "OMI_API_KEY" with
  | Some omi_app_id, Some omi_api_key =>
      let url :=
        "https://api.omi.me/v2/integrations/" +:+ omi_app_id
        +:+ "/notification?uid=" +:+ Url.quote uid
        +:+ "&message=" +:+ Url.quote message in
      let headers :=
        [("Authorization", "Bearer " +:+ omi_api_key);
         ("Content-Type", "application/json");
         ("Content-Length", "0")] in
      let request := {| url := url; headers := headers; json := None |} in
      let s1 := with_post s request in
      match omi (length (posts s)) with
      | PostRaises e => (failed e, s1)
      | Response status_code text =>
          if (200 <=? status_code) && (status_code <? 300)
          then
            let notification_data :=
              {| Stats.timestamp := utc_now s; Stats.uid := uid;
                 Stats.message := message |} in
            (done_ "Notification sent successfully",
             record_notification notification_data s1)
          else (failed (api_error status_code text), s1)
      end
  | _, _ => (failed "OMI_APP_ID or OMI_API_KEY not configured", s)
  end.

(** [f"{e['name']} ({e['score']:.2f})"] *)
Definition emotion_label (e : Stats.SummaryEmotion) : string :=
  Stats.name e +:+ " (" +:+ PyFormat.fixed 2 (Stats.score e) +:+ ")".

Definition create_memory (uid text : string)
    (emotions : list Stats.SummaryEmotion) (s : Server) : Result * Server :=
  match getenv_truthy s "OMI_APP_ID", getenv_truthy s "OMI_API_KEY" with
  | Some omi_app_id, Some omi_api_key =>
      let emotion_list :=
        PyFormat.join ", " (map emotion_label (take 3 emotions)) in
      match emotions with
      | [] =>
          (* [emotions[0]] raises [IndexError], caught by [except] *)
          (failed "list index out of range", s)
      | first :: _ =>
          let memory_data :=
            {| memories :=
                 [{| content := "Emotion detected: " +:+ emotion_list;
                     tags := ["emotion"; "audio_analysis";
                              lower (Stats.name first)] |}];
               text := text;
               text_source := "other";
               text_source_spec := "emotion_ai_analysis" |} in
          let url :=
            "https://api.omi.me/v2/integrations/" +:+ omi_app_id
            +:+ "/user/memories?uid=" +:+ uid in
          let headers :=
            [("Authorization", "Bearer " +:+ omi_api_key);
             ("Content-Type", "application/json")] in
          let request :=
            {| url := url; headers := headers; json := Some memory_data |} in
          let s1 := with_post s request in
          match omi (length (posts s)) with
          | PostRaises e => (failed e, s1)
          | Response status_code text =>
              if decide (status_code = 200)
              then (done_ "Memory created successfully", s1)
              else (failed (api_error status_code text), s1)
          end
      end
  | _, _ => (failed "OMI_APP_ID or OMI_API_KEY not configured", s)
  end.

(** [uid or audio_stats.get("last_uid")] when it is truthy. *)
Definition target_uid_of (uid : option string) (s : Server) : option string :=
  let truthy (o : option string) :=
    match o with
    | Some "" | None => None
    | Some v => Some v
    end in
  match truthy uid with
  | Some v => Some v
  | None => truthy (Stats.last_uid (audio_stats s))
  end.

Definition save_emotion_memory (uid : option string) (s : Server)
  : Try Result * Server :=
  match target_uid_of uid s with
  | None => (Returns (failed "No user ID available"), s)
  | Some target_uid =>
      match Stats.generate_emotion_summary (audio_stats s) with
      | Throws e => (Throws e, s)
      | Returns summary =>
          if negb (Stats.success summary)
          then
            (Returns {| success := Stats.success summary;
                        error := Stats.error summary;
                        message := None |}, s)
          else
            let (result, s') :=
              create_memory target_uid (default "" (Stats.summary summary))
                            (Stats.emotions summary) s in
            (Returns result, s')
      end
  end.

End Service.

End Omi.

(** ** Vocabulary of the statements on notifications *)


(** Both credentials of the notification service are set and not
    empty. *)
Definition omi_configured (s : Omi.Server) : Prop :=
  is_Some (Omi.getenv_truthy s "OMI_APP_ID") /\
  is_Some (Omi.getenv_truthy s "OMI_API_KEY").

(** A series of calls of [send_notification], one after the other. *)
Fixpoint send_notifications (omi : nat -> Omi.HttpReply)
    (calls : list (string * string)) (s : Omi.Server) : Omi.Server :=
  match calls with
  | [] => s
  | (uid, message) :: rest =>
      send_notifications omi rest (Omi.send_notification omi uid message s).2
  end.

(** A result that [analyze_audio_with_hume] returned, from some
    recording and some answers of the service. *)
Definition analysed (r : AnalysisResult) : Prop :=
  exists (hume : nat -> StreamResult) p w,
    (analyze_audio_with_hume hume p w).1 = Return r.

(** ** Sample inputs for the statistics and the notification service *)

Module SampleServer.

Definition stats (counts : list (string * Z)) : Stats.AudioStats :=
  {| Stats.total_requests := 0; Stats.successful_analyses := 0;
     Stats.failed_analyses := 0; Stats.last_request_time := None;
     Stats.last_uid := Some "last-user"; Stats.recent_emotions := [];
     Stats.emotion_counts := counts; Stats.recent_notifications := [] |}.

(** A process with both credentials of the notification service. *)
Definition server (counts : list (string * Z)) : Omi.Server :=
  {| Omi.environ := {[ "OMI_APP_ID" := "app"; "OMI_API_KEY" := "secret" ]};
     Omi.audio_stats := stats counts;
     Omi.utc_now := "2024-01-01 00:00:00 UTC";
     Omi.posts := [] |}.

Definition counts : list (string * Z) :=
  [("Joy", 2); ("Anger", 1); ("Calm", 2); ("Fear", 1); ("Pride", 3);
   ("Doubt", 5)].

(** The service accepts every request. *)
Definition accepts (n : nat) : Omi.HttpReply := Omi.Response 200 "ok".

(** A text with two language predictions. *)
Definition language (text : string) : Text.LanguageResult :=
  Text.Language
    (Some [ {| Text.lp_text := Some "good"; Text.lp_position := Text.PositionAt 0 4;
               Text.lp_emotions := Sample.scores |};
            {| Text.lp_text := Some "day"; Text.lp_position := Text.NoPosition;
               Text.lp_emotions := [] |} ]).

(** A prediction whose position is [None]. *)
Definition broken (text : string) : Text.LanguageResult :=
  Text.Language
    (Some [ {| Text.lp_text := Some "good"; Text.lp_position := Text.PositionNone;
               Text.lp_emotions := Sample.scores |} ]).

(** What the analysis of a recording of 9001 ms returns when the third
    window fails. *)
Definition result : AnalysisResult :=
  match (analyze_audio_with_hume Sample.third_fails "rec.wav"
           (Sample.world (Sample.buffer 9001))).1 with
  | Return r => r
  | Raise e => failure e
  end.

Definition environ : gmap string string := {[ "HUME_API_KEY" := "key" ]}.

End SampleServer.

(** * Properties *)

(** ** The order of floats *)

Module FloatOrder.

Ltac fold_pos_compare :=
  repeat match goal with
    | |- context [PosDef.Pos.compare_cont Eq ?a ?b] =>
        change (PosDef.Pos.compare_cont Eq a b) with (Pos.compare a b)
    end.

Lemma SFcompare_antisym a b c :
  SFcompare a b = Some c -> SFcompare b a = Some (CompOpp c).
Proof.
  destruct a as [sa|sa| |sa ma ea], b as [sb|sb| |sb mb eb]; simpl;
    intros H; try discriminate; injection H as <-;
    try (destruct sa; reflexivity); try (destruct sb; reflexivity);
    try (destruct sa, sb; reflexivity).
  destruct sa, sb; try reflexivity; fold_pos_compare;
    rewrite (Z.compare_antisym ea eb), (Pos.compare_antisym ma mb);
    destruct (ea ?= eb), (ma ?= mb)%positive; reflexivity.
Qed.

Lemma SFleb_trans a b c :
  SFleb a b = true -> SFleb b c = true -> SFleb a c = true.
Proof.
  unfold SFleb.
  destruct a as [sa|sa| |sa ma ea], b as [sb|sb| |sb mb eb],
           c as [sc|sc| |sc mc ec]; simpl; try discriminate; try reflexivity;
    try (destruct sa; try discriminate; try reflexivity);
    try (destruct sb; try discriminate; try reflexivity);
    try (destruct sc; try discriminate; try reflexivity).
  all: fold_pos_compare.
  all: destruct (Z.compare_spec ea eb), (Z.compare_spec eb ec),
         (Z.compare_spec ea ec); try discriminate; try reflexivity; try lia.
  all: subst; 
       destruct (Pos.compare_spec ma mb), (Pos.compare_spec mb mc),
         (Pos.compare_spec ma mc); simpl; try discriminate; try reflexivity; try lia.
Qed.

Lemma not_nan x : PrimFloat.is_nan x = false -> Prim2SF x <> S754_nan.
Proof.
  unfold PrimFloat.is_nan. rewrite FloatAxioms.eqb_spec. intros H E. rewrite E in H.
  discriminate.
Qed.

Lemma SFcompare_total a b :
  a <> S754_nan -> b <> S754_nan -> exists c, SFcompare a b = Some c.
Proof.
  destruct a, b; simpl; intros; try congruence; eauto.
Qed.

(** [not (x < y)] is [y <= x] when neither is a NaN. *)
Lemma ltb_false_leb x y :
  PrimFloat.is_nan x = false -> PrimFloat.is_nan y = false ->
  PrimFloat.ltb x y = false -> PrimFloat.leb y x = true.
Proof.
  intros Hx%not_nan Hy%not_nan. rewrite ltb_spec, leb_spec.
  unfold SFltb, SFleb.
  destruct (SFcompare_total _ _ Hx Hy) as [c Hc].
  rewrite Hc, (SFcompare_antisym _ _ _ Hc). by destruct c.
Qed.

Lemma ltb_leb x y : PrimFloat.ltb x y = true -> PrimFloat.leb x y = true.
Proof.
  rewrite ltb_spec, leb_spec. unfold SFltb, SFleb.
  by destruct (SFcompare _ _) as [[]|].
Qed.

Lemma leb_not_ltb x y : PrimFloat.leb x y = true -> PrimFloat.ltb y x = false.
Proof.
  rewrite ltb_spec, leb_spec. unfold SFltb, SFleb.
  destruct (SFcompare (Prim2SF x) (Prim2SF y)) as [c|] eqn:Hc; [|done].
  rewrite (SFcompare_antisym _ _ _ Hc). by destruct c.
Qed.

Lemma leb_trans x y z :
  PrimFloat.leb x y = true -> PrimFloat.leb y z = true ->
  PrimFloat.leb x z = true.
Proof. rewrite !leb_spec. apply SFleb_trans. Qed.

End FloatOrder.

(** ** [sorted_reverse] sorts *)

Section PySortedFacts.
Context {A : Type} (key : A -> float).

Global Instance ascending_trans : Transitive (ascending key).
Proof. intros a b c. apply FloatOrder.leb_trans. Qed.

Global Instance descending_trans : Transitive (descending key).
Proof. intros a b c H1 H2. exact (FloatOrder.leb_trans _ _ _ H2 H1). Qed.

Lemma insert_asc_perm x l : Permutation (insert_asc key x l) (x :: l).
Proof.
  induction l as [|y l IH]; simpl; [done|].
  destruct (PrimFloat.ltb _ _); [|done].
  rewrite IH. apply perm_swap.
Qed.

Lemma sort_asc_perm l : Permutation (sort_asc key l) l.
Proof.
  induction l as [|x l IH]; simpl; [done|].
  by rewrite insert_asc_perm, IH.
Qed.

Lemma sorted_reverse_perm l : Permutation (sorted_reverse key l) l.
Proof.
  unfold sorted_reverse.
  by rewrite <- Permutation_rev, sort_asc_perm, <- Permutation_rev.
Qed.

Lemma insert_asc_HdRel a x l :
  ascending key a x -> HdRel (ascending key) a l ->
  HdRel (ascending key) a (insert_asc key x l).
Proof.
  intros Hax Hal. destruct l as [|y l]; simpl; [by constructor|].
  destruct (PrimFloat.ltb _ _); constructor; [|done].
  by apply HdRel_inv in Hal.
Qed.

Lemma insert_asc_sorted x l :
  no_nan key (x :: l) -> Sorted (ascending key) l ->
  Sorted (ascending key) (insert_asc key x l).
Proof.
  intros Hnan Hs. induction Hs as [|y l Hs IH Hd]; simpl.
  - by repeat constructor.
  - apply Forall_cons in Hnan as [Hx [Hy Hl]%Forall_cons].
    destruct (PrimFloat.ltb (key y) (key x)) eqn:Hlt.
    + constructor.
      * apply IH. by constructor.
      * apply insert_asc_HdRel; [|done]. by apply FloatOrder.ltb_leb.
    + constructor; [by constructor|]. constructor.
      by apply FloatOrder.ltb_false_leb.
Qed.

Lemma sort_asc_sorted l : no_nan key l -> Sorted (ascending key) (sort_asc key l).
Proof.
  induction 1 as [|x l Hx Hl IH]; simpl; [constructor|].
  apply insert_asc_sorted; [|done].
  constructor; [done|]. unfold no_nan. by rewrite sort_asc_perm.
Qed.

Lemma sort_asc_id l : Sorted (ascending key) l -> sort_asc key l = l.
Proof.
  induction 1 as [|x l Hs IH Hd]; simpl; [done|].
  rewrite IH. destruct Hd as [|y l Hxy]; simpl; [done|].
  by rewrite (FloatOrder.leb_not_ltb _ _ Hxy).
Qed.

Lemma StronglySorted_rev_asc l :
  StronglySorted (ascending key) l -> StronglySorted (descending key) (rev l).
Proof.
  induction 1 as [|x l Hs IH Hall]; simpl; [constructor|].
  apply StronglySorted_app. split_and!; [|done|by repeat constructor].
  intros a b Ha ->%list_elem_of_singleton.
  apply list_elem_of_In, in_rev, list_elem_of_In in Ha.
  rewrite Forall_forall in Hall. by apply Hall.
Qed.

Lemma StronglySorted_rev_desc l :
  StronglySorted (descending key) l -> StronglySorted (ascending key) (rev l).
Proof.
  induction 1 as [|x l Hs IH Hall]; simpl; [constructor|].
  apply StronglySorted_app. split_and!; [|done|by repeat constructor].
  intros a b Ha ->%list_elem_of_singleton.
  apply list_elem_of_In, in_rev, list_elem_of_In in Ha.
  rewrite Forall_forall in Hall. by apply Hall.
Qed.

Lemma sorted_reverse_sorted l :
  no_nan key l -> StronglySorted (descending key) (sorted_reverse key l).
Proof.
  intros Hnan. apply StronglySorted_rev_asc, Sorted_StronglySorted; [apply _|].
  apply sort_asc_sorted. unfold no_nan. by rewrite <- Permutation_rev.
Qed.

Lemma sorted_reverse_id l :
  Sorted (descending key) l -> sorted_reverse key l = l.
Proof.
  intros Hs. unfold sorted_reverse. rewrite sort_asc_id; [apply rev_involutive|].
  apply StronglySorted_Sorted, StronglySorted_rev_desc.
  apply Sorted_StronglySorted; [apply _|done].
Qed.

End PySortedFacts.

(** ** [range_up] in closed form *)

Lemma range_up_closed i stop step :
  0 < step ->
  range_up i stop step =
  map (fun k => i + step * Z.of_nat k)
      (seq 0 (Z.to_nat ((stop - i + step - 1) / step))).
Proof.
  intros Hstep. funelim (range_up i stop step).
  - clear Heq Heqcall. destruct a as [_ Hlt].
    match goal with IH : _ -> range_up _ _ _ = _ |- _ => rewrite (IH Hstep) end.
    replace (stop - i + step - 1) with ((stop - (i + step) + step - 1) + 1 * step) by lia.
    rewrite Z.div_add by lia.
    assert (0 <= (stop - (i + step) + step - 1) / step)
      by (apply Z.div_pos; lia).
    rewrite Z2Nat.inj_add by lia. rewrite Nat.add_comm. simpl.
    f_equal; [lia|]. rewrite <- seq_shift, map_map.
    apply map_ext. intros k. lia.
  - clear Heq. assert (Hle : stop <= i) by lia.
    assert ((stop - i + step - 1) / step <= 0).
    { apply Z.lt_succ_r, Z.div_lt_upper_bound; lia. }
    by replace (Z.to_nat _) with 0%nat by lia.
Qed.

Section SortedMap.
Context {A B : Type} (f : A -> B) (keyA : A -> float) (keyB : B -> float).
Hypothesis key_f : forall a, keyB (f a) = keyA a.

Lemma insert_asc_map x l :
insert_asc keyB (f x) (map f l) = map f (insert_asc keyA x l).
Proof.
induction l as [|y l IH]; [done|]. cbn [map insert_asc].
rewrite !key_f. destruct (PrimFloat.ltb (keyA y) (keyA x)); [|done].
cbn [map]. by rewrite IH.
Qed.

Lemma sort_asc_map l : sort_asc keyB (map f l) = map f (sort_asc keyA l).
Proof.
induction l as [|x l IH]; [done|]. cbn [map sort_asc].
by rewrite IH, insert_asc_map.
Qed.

Lemma sorted_reverse_map l :
sorted_reverse keyB (map f l) = map f (sorted_reverse keyA l).
Proof.
unfold sorted_reverse. by rewrite <- map_rev, sort_asc_map, map_rev.
Qed.

End SortedMap.

(** ** The loop over the windows *)

Section LoopFacts.
Variable hume : nat -> StreamResult.

Lemma for_each_chunk_step audio wav_file_path starts st w :
  for_each (chunk_step hume audio wav_file_path (Z.of_nat (length audio)))
           starts st w =
  ((st.1 ++ chunks_from hume (ncalls w) starts,
    st.2 ++ map (chunk_path_of wav_file_path) starts),
   {| environ := environ w;
      files :=
        foldl (fun m i =>
                 <[chunk_path_of wav_file_path i :=
                     slice audio i (Z.min (i + MAX_CHUNK_MS)
                                          (Z.of_nat (length audio)))]> m)
              (files w) starts;
      ncalls := ncalls w + length starts;
      trace := trace w ++ flat_map (window_events audio wav_file_path) starts |}).
Proof.
  revert st w. induction starts as [|i starts IH]; intros [cd cf] [en fs n tr].
  - simpl. by rewrite !app_nil_r, Nat.add_0_r.
  - cbn [for_each]. unfold bind at 1.
    unfold chunk_step at 1, bind, slice_audio, export, _analyze_single_audio,
      bind, send_file, ret. cbn [environ files ncalls trace fst snd].
    unfold window_predictions.
    destruct (success (classify (hume n))) eqn:Hs; rewrite IH;
      cbn [environ files ncalls trace fst snd chunks_from flat_map map foldl];
      unfold window_predictions; rewrite Hs, lookup_insert_eq;
      (f_equal; [f_equal; by rewrite <- app_assoc|]);
      (f_equal; [simpl; lia|unfold window_events; by rewrite <- !app_assoc]).
Qed.
End LoopFacts.

(** ** Chunk paths are pairwise distinct *)

Lemma string_length_app (a b : string) :
  String.length (a +:+ b) = (String.length a + String.length b)%nat.
Proof. induction a as [|c a IH]; simpl; [done|]. by rewrite IH. Qed.

Lemma string_app_inj_r (a b t : string) : a +:+ t = b +:+ t -> a = b.
Proof.
  revert b. induction a as [|c a IH]; intros [|c' b] H.
  - done.
  - apply (f_equal String.length) in H.
    rewrite !string_length_app in H. simpl in H. lia.
  - apply (f_equal String.length) in H.
    rewrite !string_length_app in H. simpl in H. lia.
  - simpl in H. injection H as -> H. f_equal. by apply IH.
Qed.

Lemma window_start_index k : window_start k / MAX_CHUNK_MS = Z.of_nat k.
Proof.
  unfold window_start, MAX_CHUNK_MS. rewrite Z.mul_comm. by apply Z.div_mul.
Qed.

Lemma chunk_path_of_inj p k k' :
  chunk_path_of p (window_start k) = chunk_path_of p (window_start k') ->
  k = k'.
Proof.
  unfold chunk_path_of. rewrite !window_start_index.
  intros H%String.app_inj%String.app_inj%string_app_inj_r.
  apply (inj pretty) in H. lia.
Qed.

Lemma chunk_paths_NoDup p n :
  NoDup (map (chunk_path_of p) (map window_start (seq 0 n))).
Proof.
  rewrite map_map. apply (NoDup_fmap_2_strong (fun k => chunk_path_of p (window_start k))).
  - intros k k' _ _. apply chunk_path_of_inj.
  - apply NoDup_ListNoDup, seq_NoDup.
Qed.

(** ** Folding inserts and deletes over a file map *)

Section FileMaps.
Context {V : Type} (f : Z -> string) (g : Z -> V).

Lemma foldl_insert_is_Some_mono (m : gmap string V) l q :
  is_Some (m !! q) ->
  is_Some (foldl (fun m i => <[f i := g i]> m) m l !! q).
Proof.
  revert m. induction l as [|i l IH]; intros m Hq; simpl; [done|].
  apply IH. destruct (decide (f i = q)) as [->|Hne].
  - rewrite lookup_insert_eq. eauto.
  - by rewrite lookup_insert_ne.
Qed.

Lemma foldl_insert_is_Some (m : gmap string V) l q :
  q ∈ map f l ->
  is_Some (foldl (fun m i => <[f i := g i]> m) m l !! q).
Proof.
  revert m. induction l as [|i l IH]; intros m Hq; simpl in *.
  - by apply elem_of_nil in Hq.
  - apply elem_of_cons in Hq as [->|Hq]; [|by apply IH].
    apply foldl_insert_is_Some_mono. rewrite lookup_insert_eq. eauto.
Qed.

Lemma foldl_insert_lookup_ne (m : gmap string V) l q :
  q ∉ map f l ->
  foldl (fun m i => <[f i := g i]> m) m l !! q = m !! q.
Proof.
  revert m. induction l as [|i l IH]; intros m Hq; simpl in *; [done|].
  apply not_elem_of_cons in Hq as [Hne Hq].
  rewrite IH by done. by rewrite lookup_insert_ne.
Qed.

Lemma foldl_delete_lookup (m : gmap string V) (ps : list string) q :
  foldl (fun m p => delete p m) m ps !! q =
  if decide (q ∈ ps) then None else m !! q.
Proof.
  revert m. induction ps as [|p ps IH]; intros m; simpl.
  - done.
  - rewrite IH. destruct (decide (q ∈ ps)) as [Hin|Hnin].
    + rewrite decide_True; [done|by right].
    + destruct (decide (p = q)) as [->|Hne].
      * rewrite lookup_delete_eq, decide_True; [done|by left].
      * rewrite lookup_delete_ne by done.
        rewrite decide_False; [done|]. by intros [->|?]%elem_of_cons.
Qed.
End FileMaps.

Lemma cleanup_run paths w :
  NoDup paths ->
  (forall q, q ∈ paths -> is_Some (files w !! q)) ->
  cleanup paths w =
  (tt, {| environ := environ w;
          files := foldl (fun m q => delete q m) (files w) paths;
          ncalls := ncalls w;
          trace := trace w ++ map Unlink paths |}).
Proof.
  intros Hnd. revert w. unfold cleanup.
  induction Hnd as [|q paths Hq Hnd IH]; intros [en fs n tr] Hex; simpl in *.
  - by rewrite app_nil_r.
  - unfold bind, unlink_if_exists. cbn [files].
    destruct (Hex q) as [c Hc]; [by left|]. rewrite Hc.
    rewrite IH; cbn [environ files ncalls trace].
    + by rewrite <- app_assoc.
    + intros q' Hq'. rewrite lookup_delete_ne; [apply Hex; by right|].
      by intros ->.
Qed.

(** ** The run of the chunked path *)

Lemma range_up_windows d :
  range_up 0 d MAX_CHUNK_MS = map window_start (seq 0 (window_count d)).
Proof.
  unfold window_count. rewrite range_up_closed by done.
  rewrite length_map, length_seq. apply map_ext. intros k.
  unfold window_start. lia.
Qed.

Lemma window_count_num_chunks d :
  0 <= d -> Z.of_nat (window_count d) = (d + MAX_CHUNK_MS - 1) / MAX_CHUNK_MS.
Proof.
  intros Hd. unfold window_count. rewrite range_up_closed by done.
  rewrite length_map, length_seq, Z.sub_0_r, Z2Nat.id; [done|].
  apply Z.div_pos; unfold MAX_CHUNK_MS; lia.
Qed.

(** The number of windows is the ceiling of [d / 4500]. *)
Lemma window_count_ceiling d :
  0 < d ->
  MAX_CHUNK_MS * (Z.of_nat (window_count d) - 1) < d
  <= MAX_CHUNK_MS * Z.of_nat (window_count d).
Proof.
  intros Hd. rewrite window_count_num_chunks by lia. unfold MAX_CHUNK_MS.
  pose proof (Z.div_mod (d + 4500 - 1) 4500 ltac:(lia)).
  pose proof (Z.mod_pos_bound (d + 4500 - 1) 4500 ltac:(lia)). lia.
Qed.

Lemma flat_map_map {A B C} (f : B -> list C) (g : A -> B) l :
  flat_map f (map g l) = flat_map (fun x => f (g x)) l.
Proof. induction l as [|x l IH]; simpl; [done|]. by rewrite IH. Qed.

Section ChunkedRun.
Variable hume : nat -> StreamResult.

Lemma chunks_from_windows n k c :
  chunks_from hume n (map window_start (seq k c)) =
  flat_map (fun j => window_predictions (hume (n + j)%nat) (window_start (k + j)))
           (seq 0 c).
Proof.
  revert n k. induction c as [|c IH]; intros n k; [done|].
  cbn [seq map chunks_from flat_map].
  rewrite !Nat.add_0_r. f_equal.
  rewrite IH, <- (seq_shift c 0), flat_map_map.
  apply flat_map_ext. intros j. by rewrite !Nat.add_succ_r.
Qed.

Lemma analyze_chunked_run audio wav_file_path w :
  let d := Z.of_nat (length audio) in
  let n := window_count d in
  let path k := chunk_path_of wav_file_path (window_start k) in
  analyze_chunked hume audio wav_file_path w =
  (combine
     (flat_map (fun k => window_predictions (hume (ncalls w + k)%nat)
                                            (window_start k)) (seq 0 n))
     (PyFloat.ms_to_seconds d) ((d + MAX_CHUNK_MS - 1) / MAX_CHUNK_MS),
   {| environ := environ w;
      files :=
        foldl (fun m q => delete q m)
          (foldl (fun m i =>
                    <[chunk_path_of wav_file_path i :=
                        slice audio i (Z.min (i + MAX_CHUNK_MS) d)]> m)
                 (files w) (map window_start (seq 0 n)))
          (map path (seq 0 n));
      ncalls := ncalls w + n;
      trace :=
        trace w
        ++ flat_map (fun k => window_events audio wav_file_path (window_start k))
                    (seq 0 n)
        ++ map (fun k => Unlink (path k)) (seq 0 n) |}).
Proof.
  intros d n path. unfold analyze_chunked. fold d.
  unfold bind at 1. rewrite for_each_chunk_step. cbn [fst snd app].
  unfold bind. rewrite range_up_windows. fold n.
  rewrite cleanup_run; cbn [environ files ncalls trace].
  - unfold ret. rewrite chunks_from_windows, length_map, length_seq.
    f_equal. f_equal.
    + by rewrite map_map.
    + rewrite <- app_assoc. f_equal. f_equal.
      * by rewrite flat_map_map.
      * by rewrite !map_map.
  - apply chunk_paths_NoDup.
  - intros q Hq.
    by apply (foldl_insert_is_Some (chunk_path_of wav_file_path)
                (fun i => slice audio i (Z.min (i + MAX_CHUNK_MS) d))).
Qed.

(** The files after a chunked run: the chunk files are gone, nothing
    else changed. *)
Lemma analyze_chunked_files audio wav_file_path w q :
  let n := window_count (Z.of_nat (length audio)) in
  let paths :=
    map (fun k => chunk_path_of wav_file_path (window_start k)) (seq 0 n) in
  files (analyze_chunked hume audio wav_file_path w).2 !! q =
  if decide (q ∈ paths) then None else files w !! q.
Proof.
  intros n paths. rewrite analyze_chunked_run. cbn [snd files].
  rewrite foldl_delete_lookup. fold n paths.
  destruct (decide (q ∈ paths)) as [|Hq]; [done|].
  apply (foldl_insert_lookup_ne (chunk_path_of wav_file_path)).
  by rewrite map_map.
Qed.

Lemma analyze_audio_with_hume_no_key wav_file_path w :
  environ w !! "HUME_API_KEY" = None \/ environ w !! "HUME_API_KEY" = Some "" ->
  analyze_audio_with_hume hume wav_file_path w =
  (Raise "HUME_API_KEY environment variable not set", w).
Proof.
  unfold analyze_audio_with_hume, bind, getenv. by intros [-> | ->].
Qed.

Lemma analyze_audio_with_hume_run wav_file_path w key :
  environ w !! "HUME_API_KEY" = Some key -> key <> "" ->
  analyze_audio_with_hume hume wav_file_path w =
  match files w !! wav_file_path with
  | None =>
      (Return (failure ("[Errno 2] No such file or directory: '"
                        +:+ wav_file_path +:+ "'")), w)
  | Some audio =>
      if decide (Z.of_nat (length audio) <= 5000)
      then
        let (r, w') := _analyze_single_audio hume wav_file_path w in
        (Return r, w')
      else
        let (r, w') := analyze_chunked hume audio wav_file_path w in
        (Return r, w')
  end.
Proof.
  intros Hkey Hne. unfold analyze_audio_with_hume, bind at 1, getenv.
  rewrite Hkey. destruct key as [|c key]; [done|].
  unfold bind at 1, from_wav.
  destruct (files w !! wav_file_path) as [audio|]; [|done].
  destruct (decide _); unfold bind, ret; by destruct (_ w).
Qed.
End ChunkedRun.

(** ** Results of [_analyze_single_audio] *)

Lemma classify_failure_empty result :
  success (classify result) = false -> predictions (classify result) = [].
Proof.
  destruct result as [e|err| |warning [[|pr preds]|]]; simpl; done.
Qed.

Lemma classify_success_inv result :
  success (classify result) = true ->
  exists warning pr preds,
    result = StreamProsody warning (Some (pr :: preds)) /\
    predictions (classify result) = map pred_data (pr :: preds).
Proof.
  destruct result as [e|err| |warning [[|pr preds]|]]; simpl; try done.
  intros _. by exists warning, pr, preds.
Qed.

Lemma window_predictions_failure result i :
  success (classify result) = false -> window_predictions result i = [].
Proof. unfold window_predictions. by intros ->. Qed.

Lemma window_predictions_success result i :
  success (classify result) = true ->
  window_predictions result i = map (adjust i) (predictions (classify result))
  /\ window_predictions result i <> [].
Proof.
  intros Hs. unfold window_predictions. rewrite Hs. split; [done|].
  destruct (classify_success_inv _ Hs) as (? & ? & ? & _ & ->). done.
Qed.

Lemma flat_map_window_predictions (hume : nat -> StreamResult) n0 l :
  flat_map (fun k => window_predictions (hume (n0 + k)%nat) (window_start k)) l =
  flat_map (fun k => map (adjust (window_start k))
                         (predictions (classify (hume (n0 + k)%nat))))
           (List.filter (fun k => success (classify (hume (n0 + k)%nat))) l).
Proof.
  induction l as [|k l IH]; [done|]. cbn [flat_map List.filter].
  destruct (success (classify (hume (n0 + k)%nat))) eqn:Hs.
  - cbn [flat_map]. rewrite IH.
    by rewrite (proj1 (window_predictions_success _ _ Hs)).
  - by rewrite IH, window_predictions_failure.
Qed.

Lemma flat_map_nil_iff {A B} (f : A -> list B) l :
  flat_map f l = [] <-> forall x, x ∈ l -> f x = [].
Proof.
  induction l as [|x l IH]; simpl.
  - split; [intros _ x Hx; by apply elem_of_nil in Hx|done].
  - split.
    + intros [Hx Hl]%app_eq_nil y [->|Hy]%elem_of_cons; [done|].
      by apply IH.
    + intros H. rewrite (H x) by left. apply IH. intros y Hy. apply H. by right.
Qed.

(** ** Reading a trace *)

Lemma windows_of_app t1 t2 : windows_of (t1 ++ t2) = windows_of t1 ++ windows_of t2.
Proof. apply omap_app. Qed.

Lemma sent_of_app t1 t2 : sent_of (t1 ++ t2) = sent_of t1 ++ sent_of t2.
Proof. apply omap_app. Qed.

Lemma windows_of_loop audio p (l : list nat) :
  windows_of (flat_map (fun k => window_events audio p (window_start k)) l) =
  map (fun k => (window_start k,
                 Z.min (window_start k + MAX_CHUNK_MS) (Z.of_nat (length audio)))) l.
Proof.
  induction l as [|k l IH]; [done|]. cbn [flat_map map].
  rewrite windows_of_app, IH. done.
Qed.

Lemma sent_of_loop audio p (l : list nat) :
  sent_of (flat_map (fun k => window_events audio p (window_start k)) l) =
  map (fun k =>
         (chunk_path_of p (window_start k),
          Some (slice audio (window_start k)
                  (Z.min (window_start k + MAX_CHUNK_MS)
                         (Z.of_nat (length audio)))))) l.
Proof.
  induction l as [|k l IH]; [done|]. cbn [flat_map map].
  rewrite sent_of_app, IH. done.
Qed.

Lemma windows_of_unlinks (f : nat -> string) l :
  windows_of (map (fun k => Unlink (f k)) l) = [].
Proof. induction l as [|k l IH]; [done|]. done. Qed.

Lemma sent_of_unlinks (f : nat -> string) l :
  sent_of (map (fun k => Unlink (f k)) l) = [].
Proof. induction l as [|k l IH]; [done|]. done. Qed.

Lemma seq_split_at k n :
  (k < n)%nat -> seq 0 n = seq 0 k ++ k :: seq (S k) (n - S k).
Proof.
  intros Hk. replace n with (k + S (n - S k))%nat at 1 by lia.
  by rewrite seq_app.
Qed.

(** ** The timestamp offset *)

Lemma shift_truthy x start_ms :
  PyFloat.truthy x = true ->
  shift (Some x) start_ms = Some (PrimFloat.add x (PyFloat.ms_to_seconds start_ms)).
Proof. unfold shift. by intros ->. Qed.

Lemma shift_falsy x start_ms :
  PyFloat.truthy x = false -> shift (Some x) start_ms = None.
Proof. unfold shift. by intros ->. Qed.

(** The offsets of the first windows, in seconds: [k * 4.5]. *)
Example window_offsets :
  map (fun k => PyFloat.ms_to_seconds (window_start k)) (seq 0 4) =
  [0; 4.5; 9; 13.5]%float.
Proof. vm_compute. reflexivity. Qed.

(** A time that is not zero is moved by the offset of its window, and the
    prediction carries the number of its window. *)
Lemma adjust_nonzero k pred b e :
  t_begin (time pred) = Some b -> t_end (time pred) = Some e ->
  PyFloat.truthy b = true -> PyFloat.truthy e = true ->
  adjust (window_start k) pred =
  {| time := {| t_begin := Some (PrimFloat.add b (PyFloat.ms_to_seconds (window_start k)));
                t_end := Some (PrimFloat.add e (PyFloat.ms_to_seconds (window_start k))) |};
     emotions := emotions pred;
     top_3_emotions := top_3_emotions pred;
     chunk_index := Some (Z.of_nat k) |}.
Proof.
  intros Hb He Tb Te. unfold adjust.
  by rewrite Hb, He, !shift_truthy, window_start_index.
Qed.

(** C1, at a segment that begins with its window.  A 6000 ms recording
    is cut in two windows and the service reports, for each, a segment
    from 0.0 s to 1.5 s.  The merged predictions carry the window numbers
    0 and 1 and the ends 1.5 and 1.5 + 4.5, but both begins are [None]
    where the offset law asks for 0.0 and 4.5: a begin of 0.0 is falsy, so
    the conditional expression takes its [else] branch. *)
Theorem C1_zero_begin_is_dropped :
  let out :=
    (analyze_audio_with_hume (fun _ => Sample.speech 0 1.5) "rec.wav"
       (Sample.world (Sample.buffer 6000))).1 in
  exists r,
    out = Return r /\
    map (fun p => (t_begin (time p), t_end (time p), chunk_index p))
        (predictions r) =
    [ (None, Some 1.5%float, Some 0); (None, Some 6%float, Some 1) ].
Proof.
  eexists. split; [vm_compute; reflexivity|]. reflexivity.
Qed.

(** The direct path hands the same begin of 0.0 through. *)
Example direct_path_keeps_zero_begin :
  let out :=
    (analyze_audio_with_hume (fun _ => Sample.speech 0 1.5) "rec.wav"
       (Sample.world (Sample.buffer 5000))).1 in
  exists r,
    out = Return r /\
    map (fun p => (t_begin (time p), t_end (time p), chunk_index p))
        (predictions r) =
    [ (Some 0%float, Some 1.5%float, None) ].
Proof.
  eexists. split; [vm_compute; reflexivity|]. reflexivity.
Qed.

(** ** The windows of the chunked path *)

Lemma window_bounds d n k :
  MAX_CHUNK_MS * (Z.of_nat n - 1) < d <= MAX_CHUNK_MS * Z.of_nat n ->
  (k < n)%nat ->
  let s := window_start k in
  let e := Z.min (s + MAX_CHUNK_MS) d in
  s < e /\
  e - s = (if decide (S k = n) then d - MAX_CHUNK_MS * (Z.of_nat n - 1)
           else MAX_CHUNK_MS) /\
  (S k = n -> e = d) /\
  (S k <> n -> e = window_start (S k)).
Proof.
  unfold window_start, MAX_CHUNK_MS. intros Hn Hk. cbn zeta.
  destruct (decide (S k = n)) as [<-|Hne]; lia.
Qed.

(** C2.  A recording of more than 5000 ms is cut into consecutive windows
    that start at the multiples of 4500 ms: their number [n] is the
    ceiling of [d / 4500], all are 4500 ms long except the last, which
    takes the [d - 4500 * (n - 1)] ms that remain, each starts where the
    one before ends, the first starts at 0 and the last ends at [d]; the
    windows are sent to the service one by one in that order. *)
Theorem C2_windows_partition (hume : nat -> StreamResult) p w audio :
  configured w ->
  files w !! p = Some audio ->
  5000 < Z.of_nat (length audio) ->
  let d := Z.of_nat (length audio) in
  let w' := (analyze_audio_with_hume hume p w).2 in
  exists ws : list (Z * Z),
    let n := length ws in
    windows_of (trace w') = windows_of (trace w) ++ ws /\
    MAX_CHUNK_MS * (Z.of_nat n - 1) < d <= MAX_CHUNK_MS * Z.of_nat n /\
    (forall k s e, ws !! k = Some (s, e) ->
       s = MAX_CHUNK_MS * Z.of_nat k /\ s < e /\
       e - s = if decide (S k = n) then d - MAX_CHUNK_MS * (Z.of_nat n - 1)
               else MAX_CHUNK_MS) /\
    (forall k w1 w2, ws !! k = Some w1 -> ws !! S k = Some w2 -> w2.1 = w1.2) /\
    (exists e, ws !! 0%nat = Some (0, e)) /\
    (exists s, ws !! (n - 1)%nat = Some (s, d)) /\
    sent_of (trace w') =
      sent_of (trace w)
      ++ map (fun '(s, e) => (chunk_path_of p s, Some (slice audio s e))) ws.
Proof.
  intros (key & Hkey & Hne) Hfile Hlong d w'.
  pose (n := window_count d).
  pose (win := fun k => (window_start k, Z.min (window_start k + MAX_CHUNK_MS) d)).
  assert (Hceil : MAX_CHUNK_MS * (Z.of_nat n - 1) < d <= MAX_CHUNK_MS * Z.of_nat n)
    by (apply window_count_ceiling; lia).
  assert (Hn : (0 < n)%nat) by (unfold MAX_CHUNK_MS in Hceil; lia).
  assert (Hlook : forall k s e, map win (seq 0 n) !! k = Some (s, e) ->
                    (k < n)%nat /\ s = window_start k /\
                    e = Z.min (window_start k + MAX_CHUNK_MS) d).
  { intros k s e Hk. apply list_lookup_fmap_Some in Hk as (j & Heq & Hj).
    apply lookup_seq in Hj as [-> Hlt]. by injection Heq as -> ->. }
  exists (map win (seq 0 n)). cbn zeta. rewrite length_map, length_seq.
  subst w'. rewrite (analyze_audio_with_hume_run hume p w key Hkey Hne), Hfile.
  rewrite decide_False by lia. rewrite analyze_chunked_run. cbn [snd trace].
  fold d n. split_and!.
  - by rewrite !windows_of_app, windows_of_loop, windows_of_unlinks, app_nil_r.
  - apply Hceil.
  - apply Hceil.
  - intros k s e (Hk & -> & ->)%Hlook.
    destruct (window_bounds d n k Hceil Hk) as (? & ? & _). done.
  - intros k [s1 e1] [s2 e2] (Hk1 & -> & ->)%Hlook (Hk2 & -> & ->)%Hlook.
    destruct (window_bounds d n k Hceil Hk1) as (_ & _ & _ & He).
    cbn [fst snd]. rewrite He by lia. done.
  - exists (Z.min (window_start 0 + MAX_CHUNK_MS) d).
    rewrite list_lookup_fmap, lookup_seq_lt by lia. done.
  - exists (window_start (n - 1)).
    rewrite list_lookup_fmap, lookup_seq_lt by lia. cbn. unfold win. f_equal. f_equal.
    destruct (window_bounds d n (n - 1) Hceil ltac:(lia)) as (_ & _ & He & _).
    apply He. lia.
  - rewrite !sent_of_app, sent_of_loop, sent_of_unlinks, app_nil_r, map_map.
    done.
Qed.

(** A recording of 12000 ms makes the windows [0, 4500), [4500, 9000) and
    [9000, 12000). *)
Lemma C2_windows_partition_witness :
  let w := Sample.world (Sample.buffer 12000) in
  let w' := (analyze_audio_with_hume (fun _ => Sample.silence) "rec.wav" w).2 in
  (configured w /\ files w !! "rec.wav" = Some (Sample.buffer 12000) /\
   5000 < Z.of_nat (length (Sample.buffer 12000))) /\
  exists ws : list (Z * Z),
    windows_of (trace w') = windows_of (trace w) ++ ws /\
    MAX_CHUNK_MS * (Z.of_nat (length ws) - 1)
      < Z.of_nat (length (Sample.buffer 12000))
      <= MAX_CHUNK_MS * Z.of_nat (length ws).
Proof.
  intros w w'.
  assert (Hc : configured w)
    by (exists "key"; split; [vm_compute; reflexivity|discriminate]).
  assert (Hf : files w !! "rec.wav" = Some (Sample.buffer 12000))
    by (vm_compute; reflexivity).
  assert (Hl : 5000 < Z.of_nat (length (Sample.buffer 12000)))
    by (vm_compute; reflexivity).
  split; [exact (conj Hc (conj Hf Hl))|].
  destruct (C2_windows_partition (fun _ => Sample.silence) "rec.wav" w _ Hc Hf Hl)
    as (ws & Hw & Hn & _).
  exists ws. split; [exact Hw|]. exact Hn.
Defined.

(** ** Windows that fail *)

(** C3.  When at least one window of a chunked run succeeds, the run
    succeeds and its predictions are those of the succeeding windows, in
    the order of the windows and, inside a window, of the service, each
    passed through [adjust]; a failing window adds nothing, and every
    window is sent to the service whatever became of the ones before. *)
Theorem C3_partial_failure (hume : nat -> StreamResult) p w audio :
  configured w ->
  files w !! p = Some audio ->
  5000 < Z.of_nat (length audio) ->
  let n := window_count (Z.of_nat (length audio)) in
  let answer k := classify (hume (ncalls w + k)%nat) in
  (exists k, (k < n)%nat /\ success (answer k) = true) ->
  exists r w',
    analyze_audio_with_hume hume p w = (Return r, w') /\
    success r = true /\
    predictions r =
      flat_map (fun k => map (adjust (window_start k)) (predictions (answer k)))
               (List.filter (fun k => success (answer k)) (seq 0 n)) /\
    ncalls w' = (ncalls w + n)%nat /\
    map fst (sent_of (trace w')) =
      map fst (sent_of (trace w))
      ++ map (fun k => chunk_path_of p (window_start k)) (seq 0 n).
Proof.
  intros (key & Hkey & Hne) Hfile Hlong n answer (k & Hk & Hs).
  rewrite (analyze_audio_with_hume_run hume p w key Hkey Hne), Hfile.
  rewrite decide_False by lia. rewrite analyze_chunked_run.
  fold n. eexists _, _. split; [reflexivity|].
  cbn [ncalls trace].
  set (cd := flat_map _ (seq 0 n)).
  assert (Hcd : cd <> []).
  { unfold cd. rewrite flat_map_nil_iff. intros Hall.
    destruct (window_predictions_success _ (window_start k) Hs) as [_ Hnn].
    apply Hnn, Hall, list_elem_of_In, in_seq. lia. }
  split_and!.
  - unfold combine. by destruct cd.
  - unfold combine. destruct cd eqn:E; [done|]. cbn [predictions].
    rewrite <- E. unfold cd. apply flat_map_window_predictions.
  - done.
  - rewrite !sent_of_app, sent_of_loop, sent_of_unlinks, app_nil_r.
    by rewrite map_app, map_map.
Qed.

(** Four windows of which number 2 fails: the predictions of windows 0, 1
    and 3 remain, in that order. *)
Lemma C3_partial_failure_witness :
  let w := Sample.world (Sample.buffer 18000) in
  (configured w /\ files w !! "rec.wav" = Some (Sample.buffer 18000) /\
   5000 < Z.of_nat (length (Sample.buffer 18000)) /\
   exists k, (k < window_count (Z.of_nat (length (Sample.buffer 18000))))%nat /\
             success (classify (Sample.third_fails (ncalls w + k))) = true) /\
  exists r w',
    analyze_audio_with_hume Sample.third_fails "rec.wav" w = (Return r, w') /\
    success r = true /\
    map chunk_index (predictions r) = [Some 0; Some 1; Some 3].
Proof.
  intros w.
  assert (Hc : configured w)
    by (exists "key"; split; [vm_compute; reflexivity|discriminate]).
  assert (Hf : files w !! "rec.wav" = Some (Sample.buffer 18000))
    by (vm_compute; reflexivity).
  assert (Hl : 5000 < Z.of_nat (length (Sample.buffer 18000)))
    by (vm_compute; reflexivity).
  assert (Hk : exists k,
             (k < window_count (Z.of_nat (length (Sample.buffer 18000))))%nat /\
             success (classify (Sample.third_fails (ncalls w + k))) = true).
  { exists 0%nat. split; [vm_compute; apply le_n_S, Nat.le_0_l | reflexivity]. }
  split; [exact (conj Hc (conj Hf (conj Hl Hk)))|].
  destruct (C3_partial_failure Sample.third_fails "rec.wav" w _ Hc Hf Hl Hk)
    as (r & w' & Hrun & Hs & Hp & _).
  exists r, w'. split; [exact Hrun|]. split; [exact Hs|].
  rewrite Hp. vm_compute. reflexivity.
Defined.

(** C4.  When every window of a chunked run fails, the run returns, to
    its caller, the failure ["All chunks failed to analyze"] with no
    prediction and the diagnostics of the run. *)
Theorem C4_total_failure (hume : nat -> StreamResult) p w audio :
  configured w ->
  files w !! p = Some audio ->
  5000 < Z.of_nat (length audio) ->
  let d := Z.of_nat (length audio) in
  (forall k, (k < window_count d)%nat ->
             success (classify (hume (ncalls w + k)%nat)) = false) ->
  exists r w',
    analyze_audio_with_hume hume p w = (Return r, w') /\
    success r = false /\
    predictions r = [] /\
    error r = Some "All chunks failed to analyze" /\
    debug_info r =
      Some {| dbg_num_chunks := Z.of_nat (window_count d);
              dbg_total_duration_seconds := PyFloat.ms_to_seconds d |}.
Proof.
  intros (key & Hkey & Hne) Hfile Hlong d Hall.
  rewrite (analyze_audio_with_hume_run hume p w key Hkey Hne), Hfile.
  rewrite decide_False by lia. rewrite analyze_chunked_run. fold d.
  eexists _, _. split; [reflexivity|].
  replace (flat_map _ (seq 0 (window_count d))) with (@nil Prediction).
  - cbn. rewrite window_count_num_chunks by lia. done.
  - symmetry. apply flat_map_nil_iff. intros k Hk%list_elem_of_In%in_seq.
    apply window_predictions_failure, Hall. lia.
Qed.

Lemma C4_total_failure_witness :
  let w := Sample.world (Sample.buffer 9001) in
  let d := Z.of_nat (length (Sample.buffer 9001)) in
  (configured w /\ files w !! "rec.wav" = Some (Sample.buffer 9001) /\
   5000 < d /\
   forall k, (k < window_count d)%nat ->
             success (classify (Sample.silence)) = false) /\
  exists r w',
    analyze_audio_with_hume (fun _ => Sample.silence) "rec.wav" w = (Return r, w') /\
    success r = false /\ predictions r = [] /\
    error r = Some "All chunks failed to analyze".
Proof.
  intros w d.
  assert (Hc : configured w)
    by (exists "key"; split; [vm_compute; reflexivity|discriminate]).
  assert (Hf : files w !! "rec.wav" = Some (Sample.buffer 9001))
    by (vm_compute; reflexivity).
  assert (Hl : 5000 < d) by (vm_compute; reflexivity).
  assert (Hall : forall k, (k < window_count d)%nat ->
                           success (classify (Sample.silence)) = false)
    by (intros k _; reflexivity).
  split; [exact (conj Hc (conj Hf (conj Hl Hall)))|].
  destruct (C4_total_failure (fun _ => Sample.silence) "rec.wav" w _ Hc Hf Hl Hall)
    as (r & w' & Hrun & Hs & Hp & He & _).
  exists r, w'. exact (conj Hrun (conj Hs (conj Hp He))).
Defined.

(** ** Chunk files *)

(** C9.  Whatever the service answers, every chunk file of a chunked run
    is written, sent, and unlinked after the service has been called on
    it, and is absent from the file system when the run returns; no
    other file is touched. *)
Theorem C9_chunk_files_released (hume : nat -> StreamResult) p w audio :
  configured w ->
  files w !! p = Some audio ->
  5000 < Z.of_nat (length audio) ->
  let n := window_count (Z.of_nat (length audio)) in
  let path k := chunk_path_of p (window_start k) in
  let w' := (analyze_audio_with_hume hume p w).2 in
  (forall k, (k < n)%nat ->
     files w' !! path k = None /\
     exists chunk t1 t2 t3,
       trace w' =
         trace w ++ t1
         ++ [Export (path k) chunk; SendFile (path k) (Some chunk)]
         ++ t2 ++ [Unlink (path k)] ++ t3) /\
  (forall q, (forall k, (k < n)%nat -> q <> path k) ->
     files w' !! q = files w !! q).
Proof.
  intros (key & Hkey & Hne) Hfile Hlong n path w'. subst w'.
  rewrite (analyze_audio_with_hume_run hume p w key Hkey Hne), Hfile.
  rewrite decide_False by lia.
  destruct (analyze_chunked hume audio p w) as [r w'] eqn:Hrun.
  assert (Hfiles : forall q,
             files w' !! q =
             if decide (q ∈ map path (seq 0 n)) then None else files w !! q).
  { intros q. replace w' with (analyze_chunked hume audio p w).2 by by rewrite Hrun.
    apply analyze_chunked_files. }
  rewrite analyze_chunked_run in Hrun. injection Hrun as _ <-. cbn [snd trace].
  fold n path. split.
  - intros k Hk. split.
    + rewrite Hfiles, decide_True; [done|].
      apply list_elem_of_In, in_map, in_seq. lia.
    + rewrite (seq_split_at k n Hk), flat_map_app, map_app. cbn [flat_map map].
      unfold window_events at 2. fold (path k).
      set (d := Z.of_nat (length audio)).
      set (ev := fun j => window_events audio p (window_start j)).
      exists (slice audio (window_start k) (Z.min (window_start k + MAX_CHUNK_MS) d)),
        (flat_map ev (seq 0 k)
         ++ [Slice (window_start k) (Z.min (window_start k + MAX_CHUNK_MS) d)]),
        (flat_map ev (seq (S k) (n - S k))
         ++ map (fun j => Unlink (path j)) (seq 0 k)),
        (map (fun j => Unlink (path j)) (seq (S k) (n - S k))).
      rewrite <- !app_assoc. reflexivity.
  - intros q Hq. rewrite Hfiles, decide_False; [done|].
    intros (k & Heq & Hk%in_seq)%list_elem_of_In%in_map_iff.
    apply (Hq k); [lia|by symmetry].
Qed.

Lemma C9_chunk_files_released_witness :
  let w := Sample.world (Sample.buffer 9001) in
  let w' := (analyze_audio_with_hume Sample.third_fails "rec.wav" w).2 in
  (configured w /\ files w !! "rec.wav" = Some (Sample.buffer 9001) /\
   5000 < Z.of_nat (length (Sample.buffer 9001))) /\
  files w' !! "rec.wav.chunk2.wav" = None /\
  files w' !! "rec.wav" = files w !! "rec.wav".
Proof.
  intros w w'.
  assert (Hc : configured w)
    by (exists "key"; split; [vm_compute; reflexivity|discriminate]).
  assert (Hf : files w !! "rec.wav" = Some (Sample.buffer 9001))
    by (vm_compute; reflexivity).
  assert (Hl : 5000 < Z.of_nat (length (Sample.buffer 9001)))
    by (vm_compute; reflexivity).
  split; [exact (conj Hc (conj Hf Hl))|].
  destruct (C9_chunk_files_released Sample.third_fails "rec.wav" w _ Hc Hf Hl)
    as [Hgone Hkept].
  split.
  - apply (Hgone 2%nat). vm_compute. apply le_n.
  - apply Hkept. intros k _. vm_compute. discriminate.
Defined.

(** ** The direct path and the shape of every result *)

(** C6.  A recording of at most 5000 ms is sent as it is, once, and the
    result of that one call is returned as it is: the chunked path is not
    entered, no file is written and no time is moved. *)
Theorem C6_direct_path (hume : nat -> StreamResult) p w audio :
  configured w ->
  files w !! p = Some audio ->
  Z.of_nat (length audio) <= 5000 ->
  exists r w',
    analyze_audio_with_hume hume p w = (Return r, w') /\
    (r, w') = _analyze_single_audio hume p w /\
    r = classify (hume (ncalls w)) /\
    trace w' = trace w ++ [SendFile p (Some audio)] /\
    ncalls w' = S (ncalls w) /\
    files w' = files w.
Proof.
  intros (key & Hkey & Hne) Hfile Hshort.
  rewrite (analyze_audio_with_hume_run hume p w key Hkey Hne), Hfile.
  rewrite decide_True by done.
  unfold _analyze_single_audio, bind, send_file, ret. rewrite Hfile.
  eexists _, _. split_and!; reflexivity.
Qed.

Lemma C6_direct_path_witness :
  let w := Sample.world (Sample.buffer 5000) in
  (configured w /\ files w !! "rec.wav" = Some (Sample.buffer 5000) /\
   Z.of_nat (length (Sample.buffer 5000)) <= 5000) /\
  exists r w',
    analyze_audio_with_hume (fun _ => Sample.speech 0 1.5) "rec.wav" w
      = (Return r, w') /\
    trace w' = [SendFile "rec.wav" (Some (Sample.buffer 5000))].
Proof.
  intros w.
  assert (Hc : configured w)
    by (exists "key"; split; [vm_compute; reflexivity|discriminate]).
  assert (Hf : files w !! "rec.wav" = Some (Sample.buffer 5000))
    by (vm_compute; reflexivity).
  assert (Hl : Z.of_nat (length (Sample.buffer 5000)) <= 5000)
    by (vm_compute; discriminate).
  split; [exact (conj Hc (conj Hf Hl))|].
  destruct (C6_direct_path (fun _ => Sample.speech 0 1.5) "rec.wav" w _ Hc Hf Hl)
    as (r & w' & Hrun & _ & _ & Ht & _).
  exists r, w'. split; [exact Hrun|exact Ht].
Defined.

Lemma combine_failure_empty chunks_data seconds n :
  success (combine chunks_data seconds n) = false ->
  predictions (combine chunks_data seconds n) = [].
Proof. by destruct chunks_data. Qed.

(** C7.  A result that [analyze_audio_with_hume] or
    [_analyze_single_audio] returns with [success] false holds no
    prediction. *)
Theorem C7_failure_has_no_predictions (hume : nat -> StreamResult) p w r :
  ((analyze_audio_with_hume hume p w).1 = Return r \/
   (_analyze_single_audio hume p w).1 = r) ->
  success r = false ->
  predictions r = [].
Proof.
  intros [Hrun | <-].
  - destruct (environ w !! "HUME_API_KEY") as [key|] eqn:Hkey.
    2: { rewrite analyze_audio_with_hume_no_key in Hrun by auto. done. }
    destruct (decide (key = "")) as [->|Hne].
    { rewrite analyze_audio_with_hume_no_key in Hrun by auto. done. }
    rewrite (analyze_audio_with_hume_run hume p w key Hkey Hne) in Hrun.
    destruct (files w !! p) as [audio|].
    + destruct (decide _).
      * unfold _analyze_single_audio, bind, send_file, ret in Hrun.
        injection Hrun as <-. apply classify_failure_empty.
      * rewrite analyze_chunked_run in Hrun. injection Hrun as <-.
        apply combine_failure_empty.
    + by injection Hrun as <-.
  - apply classify_failure_empty.
Qed.

Lemma C7_failure_has_no_predictions_witness :
  let w := Sample.world (Sample.buffer 9001) in
  let out := (analyze_audio_with_hume (fun _ => Sample.silence) "rec.wav" w).1 in
  exists r, out = Return r /\ success r = false /\ predictions r = [].
Proof.
  intros w out.
  assert (Hrun : exists r, out = Return r /\ success r = false).
  { eexists. split; [vm_compute; reflexivity|reflexivity]. }
  destruct Hrun as (r & Hrun & Hs). exists r.
  split; [exact Hrun|]. split; [exact Hs|].
  exact (C7_failure_has_no_predictions (fun _ => Sample.silence) "rec.wav" w r
           (or_introl Hrun) Hs).
Defined.

(** C10.  When the call goes through and the answer carries a prosody
    part with no prediction ([None] or an empty list), the result is a
    failure whose message starts with ["No speech detected in audio"],
    followed by the warning of the service when there is one, and it
    holds no prediction; as a window of a chunked run it adds nothing. *)
Theorem C10_no_speech_is_a_failure (hume : nat -> StreamResult) p w warning preds :
  hume (ncalls w) = StreamProsody warning preds ->
  preds = None \/ preds = Some [] ->
  let r := (_analyze_single_audio hume p w).1 in
  success r = false /\
  predictions r = [] /\
  error r =
    Some (match warning_msg_of warning with
          | Some m => "No speech detected in audio (Hume: " +:+ m +:+ ")"
          | None => "No speech detected in audio"
          end) /\
  forall i, window_predictions (hume (ncalls w)) i = [].
Proof.
  intros Hanswer Hempty r. subst r.
  unfold _analyze_single_audio, bind, send_file, ret. cbn [fst].
  unfold window_predictions. rewrite Hanswer.
  destruct Hempty as [-> | ->]; cbn [classify success predictions error];
    (split_and!; [reflexivity|reflexivity| |reflexivity]);
    by destruct (warning_msg_of warning).
Qed.

Lemma C10_no_speech_is_a_failure_witness :
  let w := Sample.world (Sample.buffer 3000) in
  let r := (_analyze_single_audio (fun _ => Sample.silence) "rec.wav" w).1 in
  success r = false /\ predictions r = [] /\
  error r = Some "No speech detected in audio (Hume: No speech detected.)".
Proof.
  intros w r.
  destruct (C10_no_speech_is_a_failure (fun _ => Sample.silence) "rec.wav" w
              (Some "No speech detected.") (Some []) eq_refl (or_intror eq_refl))
    as (Hs & Hp & He & _).
  split; [exact Hs|]. split; [exact Hp|exact He].
Defined.

(** ** The trigger evaluator *)

Lemma foldl_trigger_step filters prediction acc es :
  foldl (trigger_step filters prediction) acc es =
  acc ++ map (triggered_entry prediction) (List.filter (kept filters) es).
Proof.
  revert acc. induction es as [|e es IH]; intros acc; simpl.
  - by rewrite app_nil_r.
  - rewrite IH. unfold trigger_step, kept.
    destruct (no_filters filters); simpl.
    + by rewrite <- app_assoc.
    + destruct (in_filters (name e) filters); simpl; [|done].
      by rewrite <- app_assoc.
Qed.

Lemma triggered_emotions_flat_map filters acc predictions :
  foldl (fun acc prediction =>
           foldl (trigger_step filters prediction) acc (emotions prediction))
        acc predictions =
  acc ++ flat_map (fun p => map (triggered_entry p)
                               (List.filter (kept filters) (emotions p)))
                  predictions.
Proof.
  revert acc. induction predictions as [|p ps IH]; intros acc; simpl.
  - by rewrite app_nil_r.
  - by rewrite IH, foldl_trigger_step, <- app_assoc.
Qed.

Lemma kept_same_keys (f g : gmap string float) e :
  dom f = dom g -> kept (Some f) e = kept (Some g) e.
Proof.
  intros Hdom. unfold kept, no_filters, in_filters. f_equal.
  - apply bool_decide_ext. rewrite <- !dom_empty_iff_L. by rewrite Hdom.
  - apply bool_decide_ext. rewrite <- !elem_of_dom. by rewrite Hdom.
Qed.

(** C5.  The matched emotions are, in the order met, the emotions of the
    predictions that pass the filter: all of them when the filters are
    [None] or empty, otherwise those whose name is a key of the filters.
    The thresholds stored under the keys play no part: two filters with
    the same keys give the same result.  [triggered] tells whether
    anything matched. *)
Theorem C5_trigger_evaluator (predictions : list Prediction)
    (emotion_filters : option (gmap string float)) :
  let result := check_emotion_triggers predictions emotion_filters in
  let passes (e : Emotion) : Prop :=
    emotion_filters = None \/ emotion_filters = Some ∅ \/
    exists m, emotion_filters = Some m /\ name e ∈ dom m in
  tr_emotions result =
    flat_map (fun p => map (triggered_entry p)
                           (List.filter (kept emotion_filters) (emotions p)))
             predictions /\
  (forall e, kept emotion_filters e = true <-> passes e) /\
  (forall x, x ∈ tr_emotions result <->
     exists p e, p ∈ predictions /\ e ∈ emotions p /\ passes e /\
                 x = triggered_entry p e) /\
  (triggered result = true <-> tr_emotions result <> []) /\
  total_triggers result = length (tr_emotions result) /\
  (forall f g : gmap string float,
     emotion_filters = Some f -> dom f = dom g ->
     check_emotion_triggers predictions (Some g) = result).
Proof.
  intros result passes.
  assert (Hem : tr_emotions result =
                flat_map (fun p => map (triggered_entry p)
                            (List.filter (kept emotion_filters) (emotions p)))
                         predictions).
  { unfold result, check_emotion_triggers. cbn [tr_emotions].
    by rewrite triggered_emotions_flat_map. }
  assert (Hkept : forall e, kept emotion_filters e = true <-> passes e).
  { intros e. unfold kept, passes, no_filters, in_filters.
    rewrite orb_true_iff. destruct emotion_filters as [m|].
    - rewrite !bool_decide_eq_true, <- elem_of_dom. split.
      + intros [-> | Hin]; [by right; left|]. right; right. by exists m.
      + intros [? | [[= ->] | (m' & [= <-] & Hin)]]; [done|by left|by right].
    - split; [by left|by left]. }
  split_and!.
  - exact Hem.
  - exact Hkept.
  - intros x. rewrite Hem, list_elem_of_In, in_flat_map. split.
    + intros (p & Hp & Hx). apply in_map_iff in Hx as (e & <- & He).
      apply filter_In in He as [He Hk].
      exists p, e. rewrite <- Hkept, !list_elem_of_In. done.
    + intros (p & e & Hp & He & Hpass & ->).
      exists p. rewrite <- list_elem_of_In. split; [done|].
      apply in_map, filter_In. rewrite <- list_elem_of_In, Hkept. done.
  - unfold result, check_emotion_triggers. cbn [triggered tr_emotions].
    rewrite bool_decide_eq_true. destruct (foldl _ _ _); simpl; split;
      intros; try done; lia.
  - reflexivity.
  - intros f g -> Hdom. unfold result, check_emotion_triggers.
    rewrite !triggered_emotions_flat_map. cbn [app].
    replace (flat_map (fun p => map (triggered_entry p)
               (List.filter (kept (Some g)) (emotions p))) predictions)
      with (flat_map (fun p => map (triggered_entry p)
               (List.filter (kept (Some f)) (emotions p))) predictions);
      [done|].
    apply flat_map_ext. intros p. f_equal.
    apply List.filter_ext. intros e. by apply kept_same_keys.
Qed.

(** Anger at 0.1 passes a filter that asks for Anger at 0.9. *)
Lemma C5_trigger_evaluator_witness :
  let anger := {| name := "Anger"; score := 0.125 |} in
  let joy := {| name := "Joy"; score := 0.75 |} in
  let p := {| time := {| t_begin := None; t_end := None |};
              emotions := [joy; anger]; top_3_emotions := [joy; anger];
              chunk_index := None |} in
  check_emotion_triggers [p] (Some {[ "Anger" := 0.5%float ]}) =
  check_emotion_triggers [p] (Some {[ "Anger" := 0.875%float ]}) /\
  map te_name (tr_emotions (check_emotion_triggers [p] (Some {[ "Anger" := 0.875%float ]})))
  = ["Anger"].
Proof.
  intros anger joy p.
  pose proof (C5_trigger_evaluator [p] (Some {[ "Anger" := 0.875%float ]}))
    as (Hem & _ & _ & _ & _ & Hsame).
  split.
  - apply (Hsame {[ "Anger" := 0.875%float ]} {[ "Anger" := 0.5%float ]} eq_refl).
    vm_compute. reflexivity.
  - rewrite Hem. vm_compute. reflexivity.
Defined.

(** ** The order of the emotions of a prediction *)

Lemma emotions_pred_data prediction :
  emotions (pred_data prediction) =
  sorted_reverse score (map emotion_dict (hp_emotions prediction)).
Proof.
  unfold pred_data. cbn [emotions]. symmetry.
  by apply sorted_reverse_map.
Qed.

(** C8.  Each prediction of a successful call lists the emotions the
    service gave for it, moved into descending order of score: the list
    is a permutation of the one received; when no score is a NaN, every
    emotion has a score at least that of each emotion after it; and a
    list received in descending order is returned as it is. *)
Theorem C8_defensive_sort (hume : nat -> StreamResult) p w :
  let r := (_analyze_single_audio hume p w).1 in
  success r = true ->
  exists warning preds,
    hume (ncalls w) = StreamProsody warning (Some preds) /\
    Forall2
      (fun received returned =>
         let given := map emotion_dict (hp_emotions received) in
         Permutation (emotions returned) given /\
         (no_nan score given ->
          StronglySorted (descending score) (emotions returned)) /\
         (Sorted (descending score) given -> emotions returned = given))
      preds (predictions r).
Proof.
  intros r Hs. subst r.
  unfold _analyze_single_audio, bind, send_file, ret in *. cbn [fst] in *.
  destruct (classify_success_inv _ Hs) as (warning & pr & preds & Hanswer & ->).
  exists warning, (pr :: preds). split; [done|].
  apply Forall2_fmap_r, Forall_Forall2_diag, Forall_forall.
  intros received _. unfold compose. cbn beta. rewrite emotions_pred_data. split_and!.
  - apply sorted_reverse_perm.
  - apply sorted_reverse_sorted.
  - apply sorted_reverse_id.
Qed.

Lemma C8_defensive_sort_witness :
  let w := Sample.world (Sample.buffer 3000) in
  let r := (_analyze_single_audio (fun _ => Sample.speech 0.5 1) "rec.wav" w).1 in
  success r = true /\
  Forall (fun returned =>
            Permutation (emotions returned) (map emotion_dict Sample.scores) /\
            StronglySorted (descending score) (emotions returned))
         (predictions r).
Proof.
  intros w r.
  assert (Hs : success r = true) by reflexivity.
  split; [exact Hs|].
  destruct (C8_defensive_sort (fun _ => Sample.speech 0.5 1) "rec.wav" w Hs)
    as (warning & preds & Hanswer & Hall).
  injection Hanswer as _ <-.
  apply Forall2_cons_1 in Hall as [(Hperm & Hsorted & _) _].
  constructor; [|constructor].
  split; [exact Hperm|]. apply Hsorted.
  repeat constructor.
Defined.

(** Equal scores keep the order in which the service gave them. *)
Example sort_is_stable :
  map name (emotions (pred_data (Sample.segment 0.5 1))) =
  ["Anger"; "Joy"; "Calm"].
Proof. vm_compute. reflexivity. Qed.

(** * Properties of the header, the text analysis, the statistics and
    the notifications *)

(** ** The WAV header *)

Lemma byte_of_to_N z : Z.of_N (Byte.to_N (Wav.byte_of z)) = z mod 256.
Proof.
  unfold Wav.byte_of.
  assert (Hr : 0 <= z mod 256 < 256) by (apply Z.mod_pos_bound; lia).
  destruct (Byte.of_N (Z.to_N (z mod 256))) as [b|] eqn:Hb.
  - apply Byte.to_of_N in Hb. cbn. rewrite Hb. lia.
  - apply Byte.of_N_None_iff in Hb. lia.
Qed.

Lemma length_le_bytes n k : length (Wav.le_bytes n k) = k.
Proof. revert n. induction k as [|k IH]; intros n; simpl; [done|]. by rewrite IH. Qed.

Lemma from_bytes_le_bytes n k :
  0 <= n < 256 ^ Z.of_nat k -> Wav.from_bytes (Wav.le_bytes n k) = n.
Proof.
  revert n. induction k as [|k IH]; intros n Hn.
  - simpl in *. lia.
  - cbn [Wav.le_bytes Wav.from_bytes]. rewrite byte_of_to_N.
    rewrite Nat2Z.inj_succ, Z.pow_succ_r in Hn by lia.
    rewrite IH.
    + pose proof (Z.div_mod n 256 ltac:(lia)). lia.
    + split; [apply Z.div_pos; lia|]. apply Z.div_lt_upper_bound; lia.
Qed.

Lemma to_bytes_returns n k bs :
  Wav.to_bytes n k = Returns bs <->
  0 <= n < 256 ^ Z.of_nat k /\ bs = Wav.le_bytes n k.
Proof.
  unfold Wav.to_bytes. repeat case_decide; split; try done.
  - intros [[] _]; lia.
  - intros [[] _]; lia.
  - intros [= <-]. split; [lia|done].
  - by intros [_ ->].
Qed.

Lemma to_bytes_throws n k e :
  Wav.to_bytes n k = Throws e -> exists msg, e = OverflowError msg.
Proof. unfold Wav.to_bytes. repeat case_decide; intros [= <-]; eauto. Qed.

Lemma byte_rate_double sample_rate : sample_rate * 1 * 16 / 8 = 2 * sample_rate.
Proof.
  replace (sample_rate * 1 * 16) with (2 * sample_rate * 8) by lia.
  apply Z.div_mul. lia.
Qed.

Lemma create_wav_header_in_range sample_rate data_size :
  0 <= sample_rate < 2 ^ 31 -> 0 <= data_size <= 2 ^ 32 - 37 ->
  Wav.create_wav_header sample_rate data_size =
  Returns (String.list_byte_of_string "RIFF" ++ Wav.le_bytes (36 + data_size) 4
           ++ String.list_byte_of_string "WAVEfmt "
           ++ Wav.le_bytes 16 4 ++ Wav.le_bytes 1 2 ++ Wav.le_bytes 1 2
           ++ Wav.le_bytes sample_rate 4 ++ Wav.le_bytes (2 * sample_rate) 4
           ++ Wav.le_bytes 2 2 ++ Wav.le_bytes 16 2
           ++ String.list_byte_of_string "data" ++ Wav.le_bytes data_size 4).
Proof.
  change (2 ^ 31) with 2147483648. change (2 ^ 32) with 4294967296.
  intros Hs Hd. unfold Wav.create_wav_header.
  rewrite byte_rate_double. unfold Wav.to_bytes.
  change (256 ^ Z.of_nat 4) with 4294967296.
  rewrite (decide_False (P := 36 + data_size < 0)) by lia.
  rewrite (decide_False (P := 4294967296 <= 36 + data_size)) by lia.
  rewrite (decide_False (P := sample_rate < 0)) by lia.
  rewrite (decide_False (P := 4294967296 <= sample_rate)) by lia.
  rewrite (decide_False (P := 2 * sample_rate < 0)) by lia.
  rewrite (decide_False (P := 4294967296 <= 2 * sample_rate)) by lia.
  rewrite (decide_False (P := data_size < 0)) by lia.
  rewrite (decide_False (P := 4294967296 <= data_size)) by lia.
  reflexivity.
Qed.

Lemma create_wav_header_out_of_range sample_rate data_size :
  ~ (0 <= sample_rate < 2 ^ 31 /\ 0 <= data_size <= 2 ^ 32 - 37) ->
  exists msg, Wav.create_wav_header sample_rate data_size = Throws (OverflowError msg).
Proof.
  change (2 ^ 31) with 2147483648. change (2 ^ 32) with 4294967296.
  intros Hout. unfold Wav.create_wav_header.
  rewrite byte_rate_double. unfold Wav.to_bytes.
  change (256 ^ Z.of_nat 4) with 4294967296.
  repeat (case_decide; cbn [try_bind]; eauto).
  lia.
Qed.

Lemma create_wav_header_returns sample_rate data_size h :
  Wav.create_wav_header sample_rate data_size = Returns h ->
  0 <= sample_rate < 2 ^ 31 /\ 0 <= data_size <= 2 ^ 32 - 37.
Proof.
  intros Hh.
  destruct (decide (0 <= sample_rate < 2 ^ 31 /\ 0 <= data_size <= 2 ^ 32 - 37))
    as [|Hout]; [done|].
  destruct (create_wav_header_out_of_range _ _ Hout) as [msg Hmsg]. congruence.
Qed.

(** X1.  [create_wav_header] returns a header, of 44 bytes, exactly when
    the sample rate is in [0, 2^31) and the data size in [0, 2^32 - 37];
    for every other input it raises [OverflowError]. *)
Theorem X1_wav_header_range sample_rate data_size :
  let in_range :=
    0 <= sample_rate < 2 ^ 31 /\ 0 <= data_size <= 2 ^ 32 - 37 in
  (in_range /\
   exists h, Wav.create_wav_header sample_rate data_size = Returns h /\
             length h = 44%nat)
  \/
  (~ in_range /\
   exists msg,
     Wav.create_wav_header sample_rate data_size = Throws (OverflowError msg)).
Proof.
  intros in_range. destruct (decide in_range) as [Hin|Hout].
  - left. split; [done|]. destruct Hin as [Hs Hd].
    rewrite (create_wav_header_in_range _ _ Hs Hd). eexists. split; [done|].
    rewrite !length_app, !length_le_bytes. reflexivity.
  - right. split; [done|]. by apply create_wav_header_out_of_range.
Qed.

(** X2.  The header that [create_wav_header] returns reads back, field by
    field, as the canonical 44-byte PCM header of its arguments: the tags
    RIFF, WAVE, fmt and data, the chunk size [36 + data_size], format 1,
    one channel, the sample rate, [2 * sample_rate] bytes per second,
    blocks of 2 bytes, 16 bits per sample and the data size. *)
Theorem X2_wav_header_fields sample_rate data_size h :
  Wav.create_wav_header sample_rate data_size = Returns h ->
  Wav.field h 0 4 = String.list_byte_of_string "RIFF" /\
  Wav.from_bytes (Wav.field h 4 4) = 36 + data_size /\
  Wav.field h 8 4 = String.list_byte_of_string "WAVE" /\
  Wav.field h 12 4 = String.list_byte_of_string "fmt " /\
  Wav.from_bytes (Wav.field h 16 4) = 16 /\
  Wav.from_bytes (Wav.field h 20 2) = 1 /\
  Wav.from_bytes (Wav.field h 22 2) = 1 /\
  Wav.from_bytes (Wav.field h 24 4) = sample_rate /\
  Wav.from_bytes (Wav.field h 28 4) = 2 * sample_rate /\
  Wav.from_bytes (Wav.field h 32 2) = 2 /\
  Wav.from_bytes (Wav.field h 34 2) = 16 /\
  Wav.field h 36 4 = String.list_byte_of_string "data" /\
  Wav.from_bytes (Wav.field h 40 4) = data_size.
Proof.
  intros Hh. destruct (create_wav_header_returns _ _ _ Hh) as [Hs Hd].
  rewrite (create_wav_header_in_range _ _ Hs Hd) in Hh. injection Hh as <-.
  change (2 ^ 31) with 2147483648 in Hs. change (2 ^ 32) with 4294967296 in Hd.
  assert (H4 : forall n, 0 <= n < 4294967296 ->
                 Wav.from_bytes (Wav.le_bytes n 4) = n)
    by (intros n Hn; by apply from_bytes_le_bytes).
  split_and!; try reflexivity.
  - apply (H4 (36 + data_size)). lia.
  - apply H4. lia.
  - apply (H4 (2 * sample_rate)). lia.
  - apply H4. lia.
Qed.

Lemma X2_wav_header_fields_witness :
  exists h,
    Wav.create_wav_header 16000 32000 = Returns h /\
    Wav.from_bytes (Wav.field h 24 4) = 16000 /\
    Wav.from_bytes (Wav.field h 40 4) = 32000.
Proof.
  assert (Hh : exists h, Wav.create_wav_header 16000 32000 = Returns h).
  { eexists. vm_compute. reflexivity. }
  destruct Hh as [h Hh]. exists h.
  pose proof (X2_wav_header_fields 16000 32000 h Hh)
    as (_ & _ & _ & _ & _ & _ & _ & Hrate & _ & _ & _ & _ & Hsize).
  exact (conj Hh (conj Hrate Hsize)).
Defined.

(** X3.  The file that [handle_audio_stream] stores, header followed by
    the audio bytes, has [44 + len(audio_data)] bytes; its RIFF chunk
    size is the file size less 8, its data size is the number of audio
    bytes, and the audio bytes follow the header unchanged. *)
Theorem X3_wav_file_sizes sample_rate audio_data file :
  Wav.wav_data sample_rate audio_data = Returns file ->
  length file = (44 + length audio_data)%nat /\
  Wav.from_bytes (Wav.field file 4 4) = Z.of_nat (length file) - 8 /\
  Wav.from_bytes (Wav.field file 40 4) = Z.of_nat (length audio_data) /\
  drop 44 file = audio_data.
Proof.
  unfold Wav.wav_data. intros Hfile.
  destruct (Wav.create_wav_header _ _) as [h|e] eqn:Hh; [|done].
  injection Hfile as <-.
  destruct (create_wav_header_returns _ _ _ Hh) as [Hs Hd].
  rewrite (create_wav_header_in_range _ _ Hs Hd) in Hh. injection Hh as <-.
  change (2 ^ 32) with 4294967296 in Hd.
  assert (H4 : forall n, 0 <= n < 4294967296 ->
                 Wav.from_bytes (Wav.le_bytes n 4) = n)
    by (intros n Hn; by apply from_bytes_le_bytes).
  split_and!.
  - reflexivity.
  - transitivity (36 + Z.of_nat (length audio_data)).
    + apply (H4 (36 + Z.of_nat (length audio_data))). lia.
    + rewrite length_app. cbn [length]. lia.
  - apply (H4 (Z.of_nat (length audio_data))). lia.
  - reflexivity.
Qed.

Lemma X3_wav_file_sizes_witness :
  let audio_data := String.list_byte_of_string "abcdef" in
  exists file,
    Wav.wav_data 8000 audio_data = Returns file /\
    length file = 50%nat /\ drop 44 file = audio_data.
Proof.
  intros audio_data.
  assert (Hf : exists file, Wav.wav_data 8000 audio_data = Returns file).
  { eexists. vm_compute. reflexivity. }
  destruct Hf as [file Hf]. exists file.
  pose proof (X3_wav_file_sizes 8000 audio_data file Hf) as (Hlen & _ & _ & Hd).
  exact (conj Hf (conj Hlen Hd)).
Defined.

(** ** What the service receives *)

Lemma concat_slices audio n :
  concat (map (fun k => slice audio (window_start k)
                          (Z.min (window_start k + MAX_CHUNK_MS)
                                 (Z.of_nat (length audio))))
              (seq 0 n)) =
  take (Z.to_nat (Z.min (window_start n) (Z.of_nat (length audio)))) audio.
Proof.
  induction n as [|n IH].
  - unfold window_start, MAX_CHUNK_MS. cbn [seq map concat].
    by replace (Z.to_nat _) with 0%nat by lia.
  - rewrite seq_S, map_app, concat_app, IH. cbn [map concat].
    rewrite app_nil_r. unfold slice, window_start, MAX_CHUNK_MS.
    destruct (decide (4500 * Z.of_nat n <= Z.of_nat (length audio))) as [Hle|Hgt].
    + rewrite (Z.min_l (4500 * Z.of_nat n)) by lia.
      rewrite take_take_drop. f_equal. lia.
    + rewrite (drop_ge audio) by lia.
      rewrite take_nil, app_nil_r. f_equal. lia.
Qed.

Lemma sent_of_run (hume : nat -> StreamResult) p w :
  let w' := (analyze_audio_with_hume hume p w).2 in
  (sent_of (trace w') = sent_of (trace w)) \/
  (exists audio, files w !! p = Some audio /\
     Z.of_nat (length audio) <= 5000 /\
     sent_of (trace w') = sent_of (trace w) ++ [(p, Some audio)]) \/
  (exists audio, files w !! p = Some audio /\
     5000 < Z.of_nat (length audio) /\
     sent_of (trace w') =
       sent_of (trace w)
       ++ map (fun k =>
                 (chunk_path_of p (window_start k),
                  Some (slice audio (window_start k)
                          (Z.min (window_start k + MAX_CHUNK_MS)
                                 (Z.of_nat (length audio))))))
              (seq 0 (window_count (Z.of_nat (length audio))))).
Proof.
  intros w'. subst w'.
  destruct (environ w !! "HUME_API_KEY") as [key|] eqn:Hkey.
  2: { left. rewrite analyze_audio_with_hume_no_key by auto. done. }
  destruct (decide (key = "")) as [->|Hne].
  { left. rewrite analyze_audio_with_hume_no_key by auto. done. }
  rewrite (analyze_audio_with_hume_run hume p w key Hkey Hne).
  destruct (files w !! p) as [audio|] eqn:Hfile; [|by left].
  right. destruct (decide _) as [Hshort|Hlong].
  - left. exists audio. split_and!; [done|done|].
    unfold _analyze_single_audio, bind, send_file, ret. cbn [snd trace].
    by rewrite sent_of_app, Hfile.
  - right. exists audio. split_and!; [done|lia|].
    rewrite analyze_chunked_run. cbn [snd trace].
    by rewrite !sent_of_app, sent_of_loop, sent_of_unlinks, app_nil_r.
Qed.

(** X4.  Whatever the length of the recording and whatever the service
    answers, every file that a run of [analyze_audio_with_hume] sends to
    the service exists when it is sent and holds at most 5000 ms of
    audio. *)
Theorem X4_sent_audio_within_limit (hume : nat -> StreamResult) p w :
  let w' := (analyze_audio_with_hume hume p w).2 in
  exists sent,
    sent_of (trace w') = sent_of (trace w) ++ sent /\
    Forall (fun '(path, content) =>
              exists audio : AudioSegment,
                content = Some audio /\ Z.of_nat (length audio) <= 5000)
           sent.
Proof.
  intros w'. subst w'.
  destruct (sent_of_run hume p w)
    as [Hnone | [(audio & Hfile & Hshort & Hsent) |
                 (audio & Hfile & Hlong & Hsent)]].
  - exists []. by rewrite app_nil_r.
  - eexists. split; [exact Hsent|]. repeat constructor. eauto.
  - eexists. split; [exact Hsent|].
    apply Forall_forall. intros [path content] Hin.
    apply list_elem_of_In, in_map_iff in Hin as (k & [= <- <-] & _).
    eexists. split; [done|].
    unfold slice, MAX_CHUNK_MS. rewrite length_take. lia.
Qed.

(** X5.  The chunks of a recording of more than 5000 ms, put end to end
    in the order in which they are sent, are the recording: no
    millisecond of audio is lost, repeated or reordered. *)
Theorem X5_chunks_make_the_recording (hume : nat -> StreamResult) p w audio :
  configured w ->
  files w !! p = Some audio ->
  5000 < Z.of_nat (length audio) ->
  let w' := (analyze_audio_with_hume hume p w).2 in
  exists sent,
    sent_of (trace w') = sent_of (trace w) ++ sent /\
    concat (map (fun s => default [] s.2) sent) = audio.
Proof.
  intros (key & Hkey & Hne) Hfile Hlong w'. subst w'.
  destruct (sent_of_run hume p w)
    as [Hnone | [(audio' & Hfile' & Hshort & Hsent) |
                 (audio' & Hfile' & _ & Hsent)]].
  - exfalso. revert Hnone.
    rewrite (analyze_audio_with_hume_run hume p w key Hkey Hne), Hfile.
    rewrite decide_False by lia. rewrite analyze_chunked_run. cbn [snd trace].
    rewrite !sent_of_app, sent_of_loop, sent_of_unlinks, app_nil_r.
    intros Heq. apply (f_equal length) in Heq.
    rewrite length_app, length_map, length_seq in Heq.
    pose proof (window_count_ceiling (Z.of_nat (length audio)) ltac:(lia)).
    unfold MAX_CHUNK_MS in *. lia.
  - rewrite Hfile in Hfile'. injection Hfile' as <-. lia.
  - rewrite Hfile in Hfile'. injection Hfile' as <-.
    eexists. split; [exact Hsent|].
    rewrite map_map.
    change (concat (map (fun k => slice audio (window_start k)
                                    (Z.min (window_start k + MAX_CHUNK_MS)
                                           (Z.of_nat (length audio))))
                        (seq 0 (window_count (Z.of_nat (length audio)))))
            = audio).
    rewrite concat_slices. apply take_ge.
    pose proof (window_count_ceiling (Z.of_nat (length audio)) ltac:(lia)).
    unfold window_start. lia.
Qed.

Lemma X5_chunks_make_the_recording_witness :
  let audio := Sample.buffer 9001 in
  let w := Sample.world audio in
  let w' := (analyze_audio_with_hume Sample.third_fails "rec.wav" w).2 in
  exists sent,
    sent_of (trace w') = sent_of (trace w) ++ sent /\
    concat (map (fun s => default [] s.2) sent) = audio.
Proof.
  intros audio w w'.
  assert (Hc : configured w)
    by (exists "key"; split; [vm_compute; reflexivity|discriminate]).
  assert (Hf : files w !! "rec.wav" = Some audio) by (vm_compute; reflexivity).
  assert (Hl : 5000 < Z.of_nat (length audio)) by (vm_compute; reflexivity).
  exact (X5_chunks_make_the_recording Sample.third_fails "rec.wav" w audio Hc Hf Hl).
Defined.

(** ** The predictions of a result *)

(** What every prediction of a result satisfies, given that the
    predictions made from the answers of the service do. *)
Lemma predictions_of_run (P : Prediction -> Prop) (hume : nat -> StreamResult) p w r :
  (forall received, P (pred_data received)) ->
  (forall i pred, P pred -> P (adjust i pred)) ->
  (analyze_audio_with_hume hume p w).1 = Return r ->
  Forall P (predictions r).
Proof.
  intros Hpred Hadjust Hrun.
  assert (Hclassify : forall result, Forall P (predictions (classify result))).
  { intros [e|err| |warning [[|pr preds]|]]; cbn; try constructor.
    - apply Hpred.
    - apply Forall_forall. intros x (y & <- & _)%list_elem_of_In%in_map_iff.
      apply Hpred. }
  destruct (environ w !! "HUME_API_KEY") as [key|] eqn:Hkey.
  2: { rewrite analyze_audio_with_hume_no_key in Hrun by auto. done. }
  destruct (decide (key = "")) as [->|Hne].
  { rewrite analyze_audio_with_hume_no_key in Hrun by auto. done. }
  rewrite (analyze_audio_with_hume_run hume p w key Hkey Hne) in Hrun.
  destruct (files w !! p) as [audio|].
  - destruct (decide _).
    + unfold _analyze_single_audio, bind, send_file, ret in Hrun.
      injection Hrun as <-. apply Hclassify.
    + rewrite analyze_chunked_run in Hrun. injection Hrun as <-.
      set (cd := flat_map _ _).
      assert (Hcd : Forall P cd).
      { apply Forall_forall. intros x Hx.
        apply list_elem_of_In, in_flat_map in Hx as (k & _ & Hx).
        unfold window_predictions in Hx.
        destruct (success _); [|done].
        apply in_map_iff in Hx as (y & <- & Hy). apply Hadjust.
        specialize (Hclassify (hume (ncalls w + k)%nat)).
        rewrite Forall_forall in Hclassify. by apply Hclassify, list_elem_of_In. }
      unfold combine. destruct cd; [constructor|done].
  - injection Hrun as <-. constructor.
Qed.

(** X6.  In every result of [analyze_audio_with_hume], from the direct
    or the chunked path, the [top_3_emotions] of a prediction are the
    first three of its [emotions] (all of them when there are fewer). *)
Theorem X6_top_3_is_a_prefix (hume : nat -> StreamResult) p w r :
  (analyze_audio_with_hume hume p w).1 = Return r ->
  Forall (fun pred =>
            top_3_emotions pred = take 3 (emotions pred) /\
            (length (top_3_emotions pred) <= 3)%nat)
         (predictions r).
Proof.
  apply predictions_of_run.
  - intros received. unfold pred_data. cbn [top_3_emotions emotions].
    change (map emotion_dict) with (fmap (M:=list) emotion_dict).
    rewrite fmap_take. split; [done|]. rewrite length_take. lia.
  - intros i pred [Htop Hlen]. done.
Qed.

Lemma X6_top_3_is_a_prefix_witness :
  let w := Sample.world (Sample.buffer 9001) in
  exists r,
    (analyze_audio_with_hume Sample.third_fails "rec.wav" w).1 = Return r /\
    Forall (fun pred => top_3_emotions pred = take 3 (emotions pred))
           (predictions r).
Proof.
  intros w.
  assert (Hr : exists r,
             (analyze_audio_with_hume Sample.third_fails "rec.wav" w).1 = Return r).
  { eexists. vm_compute. reflexivity. }
  destruct Hr as [r Hr]. exists r. split; [exact Hr|].
  eapply Forall_impl;
    [exact (X6_top_3_is_a_prefix Sample.third_fails "rec.wav" w r Hr)|].
  intros pred [Htop _]. exact Htop.
Defined.

Lemma chunk_index_flat_map (f : nat -> list Prediction) (l : list nat) :
  StronglySorted lt l ->
  StronglySorted Z.le
    (map (fun k => Z.of_nat k)
         (flat_map (fun k => map (fun _ => k) (f k)) l)).
Proof.
  induction 1 as [|k l Hs IH Hall]; [constructor|]. cbn [flat_map].
  rewrite map_app. apply StronglySorted_app. split_and!.
  - intros a b (x & <- & (y & <- & _)%in_map_iff)%list_elem_of_In%in_map_iff
             (x' & <- & Hb)%list_elem_of_In%in_map_iff.
    apply in_flat_map in Hb as (j & Hj & (z & <- & _)%in_map_iff).
    rewrite Forall_forall in Hall. apply list_elem_of_In, Hall in Hj. lia.
  - rewrite map_map. induction (f k); cbn; constructor; [done|].
    apply Forall_forall. intros b (x & <- & _)%list_elem_of_In%in_map_iff. lia.
  - done.
Qed.

Lemma combine_success chunks_data seconds n :
  success (combine chunks_data seconds n) = true ->
  predictions (combine chunks_data seconds n) = chunks_data /\
  total_predictions (combine chunks_data seconds n) = Some (length chunks_data) /\
  num_chunks (combine chunks_data seconds n) = Some n /\
  chunked (combine chunks_data seconds n) = true.
Proof. by destruct chunks_data. Qed.

Lemma filter_seq_sorted (f : nat -> bool) s n :
  StronglySorted lt (List.filter f (seq s n)).
Proof.
  revert s. induction n as [|n IH]; intros s; cbn [seq List.filter]; [constructor|].
  destruct (f s); [|apply IH].
  constructor; [apply IH|]. apply Forall_forall.
  intros k [Hk _]%list_elem_of_In%filter_In. apply in_seq in Hk. lia.
Qed.

Lemma omap_map_Some {A B} (g : A -> option B) (l : list A) (l' : list B) :
  map g l = map Some l' -> omap g l = l'.
Proof.
  revert l'. induction l as [|x l IH]; intros [|y l']; cbn; try done.
  intros [= -> Hrest]. f_equal. by apply IH.
Qed.

(** X7.  A successful chunked result is marked [chunked], counts its
    predictions in [total_predictions] and its windows in [num_chunks];
    each prediction carries the number of its window, a number below
    [num_chunks], and these numbers never decrease along the list. *)
Theorem X7_chunked_result_metadata (hume : nat -> StreamResult) p w audio r :
  configured w ->
  files w !! p = Some audio ->
  5000 < Z.of_nat (length audio) ->
  (analyze_audio_with_hume hume p w).1 = Return r ->
  success r = true ->
  exists n,
    chunked r = true /\
    num_chunks r = Some n /\
    MAX_CHUNK_MS * (n - 1) < Z.of_nat (length audio) <= MAX_CHUNK_MS * n /\
    total_predictions r = Some (length (predictions r)) /\
    Forall (fun pred => exists k, chunk_index pred = Some k /\ 0 <= k < n)
           (predictions r) /\
    StronglySorted Z.le (omap chunk_index (predictions r)).
Proof.
  intros (key & Hkey & Hne) Hfile Hlong Hrun Hs.
  rewrite (analyze_audio_with_hume_run hume p w key Hkey Hne), Hfile in Hrun.
  rewrite decide_False in Hrun by lia. rewrite analyze_chunked_run in Hrun.
  injection Hrun as <-.
  set (d := Z.of_nat (length audio)) in *.
  set (n := window_count d) in *.
  rewrite flat_map_window_predictions in *.
  set (ks := List.filter _ (seq 0 n)) in *.
  pose (answers := fun k => predictions (classify (hume (ncalls w + k)%nat))).
  change (fun k => map (adjust (window_start k))
                       (predictions (classify (hume (ncalls w + k)%nat))))
    with (fun k => map (adjust (window_start k)) (answers k)) in *.
  assert (Hks : Forall (fun k => (k < n)%nat) ks).
  { apply Forall_forall. intros k [Hk _]%list_elem_of_In%filter_In.
    apply in_seq in Hk. lia. }
  assert (Hidx : forall l,
             map chunk_index
               (flat_map (fun k => map (adjust (window_start k)) (answers k)) l) =
             map Some (map (fun k => Z.of_nat k)
                         (flat_map (fun k => map (fun _ => k) (answers k)) l))).
  { induction l as [|k l IH]; [done|]. cbn [flat_map].
    rewrite !map_app, IH. f_equal. rewrite !map_map. apply map_ext.
    intros pred. cbn [adjust chunk_index]. by rewrite window_start_index. }
  destruct (combine_success _ _ _ Hs) as (-> & -> & -> & ->).
  exists ((d + MAX_CHUNK_MS - 1) / MAX_CHUNK_MS).
  rewrite <- (window_count_num_chunks d) by (unfold d; lia). fold n.
  split_and!; try done.
  - apply window_count_ceiling. lia.
  - apply window_count_ceiling. lia.
  - apply Forall_forall. intros x Hx.
    assert (Hin : chunk_index x ∈
              map chunk_index
                (flat_map (fun k => map (adjust (window_start k)) (answers k)) ks))
      by (apply list_elem_of_In, in_map, list_elem_of_In, Hx).
    rewrite Hidx in Hin.
    apply list_elem_of_In, in_map_iff in Hin as (k & <- & Hk).
    apply in_map_iff in Hk as (j & <- & Hj).
    apply in_flat_map in Hj as (i & Hi & (z & <- & _)%in_map_iff).
    rewrite Forall_forall in Hks. apply list_elem_of_In, Hks in Hi.
    exists (Z.of_nat i). split; [done|lia].
  - rewrite (omap_map_Some _ _ _ (Hidx ks)).
    apply chunk_index_flat_map, filter_seq_sorted.
Qed.

Lemma X7_chunked_result_metadata_witness :
  let w := Sample.world (Sample.buffer 18000) in
  exists r,
    (analyze_audio_with_hume Sample.third_fails "rec.wav" w).1 = Return r /\
    num_chunks r = Some 4 /\
    StronglySorted Z.le (omap chunk_index (predictions r)).
Proof.
  intros w.
  assert (Hc : configured w)
    by (exists "key"; split; [vm_compute; reflexivity|discriminate]).
  assert (Hf : files w !! "rec.wav" = Some (Sample.buffer 18000))
    by (vm_compute; reflexivity).
  assert (Hl : 5000 < Z.of_nat (length (Sample.buffer 18000)))
    by (vm_compute; reflexivity).
  assert (Hr : exists r,
             (analyze_audio_with_hume Sample.third_fails "rec.wav" w).1 = Return r
             /\ success r = true /\ num_chunks r = Some 4).
  { eexists. split; [vm_compute; reflexivity|]. split; reflexivity. }
  destruct Hr as (r & Hr & Hs & Hn). exists r.
  destruct (X7_chunked_result_metadata Sample.third_fails "rec.wav" w _ r
              Hc Hf Hl Hr Hs) as (n & _ & _ & _ & _ & _ & Hsorted).
  exact (conj Hr (conj Hn Hsorted)).
Defined.

(** ** Text analysis *)

Lemma text_collect_inr lang_preds predictions :
  Text.collect lang_preds = inr predictions ->
  Forall2 (fun received returned => Text.pred_data received = inr returned)
          lang_preds predictions.
Proof.
  revert predictions. induction lang_preds as [|pr rest IH]; intros predictions.
  - intros [= <-]. constructor.
  - cbn [Text.collect]. destruct (Text.pred_data pr) as [e|pd] eqn:Hpd; [done|].
    destruct (Text.collect rest) as [e|pds]; [done|].
    intros [= <-]. constructor; [done|]. by apply IH.
Qed.

Lemma text_collect_inl lang_preds e :
  Text.collect lang_preds = inl e ->
  exists prediction, prediction ∈ lang_preds /\
                     Text.lp_position prediction = Text.PositionNone.
Proof.
  revert e. induction lang_preds as [|pr rest IH]; intros e; [done|].
  cbn [Text.collect].
  destruct (Text.pred_data pr) as [e'|pd] eqn:Hpd.
  - intros _. exists pr. split; [by left|].
    unfold Text.pred_data in Hpd. by destruct (Text.lp_position pr).
  - destruct (Text.collect rest) as [e'|pds]; [|done].
    intros _. destruct (IH e' eq_refl) as (x & Hx & Hpos).
    exists x. split; [by right|done].
Qed.

Lemma text_emotions_pred_data received returned :
  Text.pred_data received = inr returned ->
  Text.emotions returned =
    sorted_reverse score (map emotion_dict (Text.lp_emotions received)) /\
  Text.top_3_emotions returned = take 3 (Text.emotions returned) /\
  Text.text returned = Text.lp_text received.
Proof.
  unfold Text.pred_data.
  destruct (Text.lp_position received); intros [= <-];
    cbn [Text.emotions Text.top_3_emotions Text.text];
    (split_and!; [symmetry; by apply sorted_reverse_map| |done]);
    change (map emotion_dict) with (fmap (M:=list) emotion_dict);
    by rewrite fmap_take.
Qed.

(** X8.  When [analyze_text_with_hume] returns a success, the service
    answered with a list of language predictions, possibly empty, and
    the result holds one prediction for each, in the same order, with
    the text of the prediction, its emotions in descending order of
    score (a permutation of those received) and the first three of them
    as [top_3_emotions]; [total_predictions] is their number and
    [analyzed_text] the text that was sent. *)
Theorem X8_text_success environ send_text text r :
  Text.analyze_text_with_hume environ send_text text = Returns r ->
  Text.success r = true ->
  exists lang_preds,
    send_text text = Text.Language (Some lang_preds) /\
    Text.total_predictions r = Some (length lang_preds) /\
    Text.analyzed_text r = Some text /\
    Forall2
      (fun received returned =>
         let given := map emotion_dict (Text.lp_emotions received) in
         Text.text returned = Text.lp_text received /\
         Permutation (Text.emotions returned) given /\
         (no_nan score given ->
          StronglySorted (descending score) (Text.emotions returned)) /\
         Text.top_3_emotions returned = take 3 (Text.emotions returned))
      lang_preds (Text.predictions r).
Proof.
  unfold Text.analyze_text_with_hume.
  destruct (environ !! "HUME_API_KEY") as [[|c key]|]; try done.
  intros [= <-]. unfold Text.classify.
  destruct (send_text text) as [e|err| |[lang_preds|]]; try done.
  destruct (Text.collect lang_preds) as [e|predictions] eqn:Hcollect; [done|].
  intros _. cbn. exists lang_preds.
  apply text_collect_inr in Hcollect.
  split_and!; try done.
  - f_equal. symmetry. by eapply Forall2_length.
  - eapply Forall2_impl; [exact Hcollect|]. cbn beta.
    intros received returned (Hem & Htop & Htext)%text_emotions_pred_data.
    rewrite Hem. split_and!.
    + done.
    + apply sorted_reverse_perm.
    + apply sorted_reverse_sorted.
    + by rewrite <- Hem.
Qed.

(** X9.  Every failure that [analyze_text_with_hume] returns holds no
    prediction, and it returns a failure whenever the call raises, the
    answer is an error or has no language part, the list of predictions
    is [None], or a prediction has a position that is [None]. *)
Theorem X9_text_failures environ send_text text r :
  Text.analyze_text_with_hume environ send_text text = Returns r ->
  (Text.success r = false -> Text.predictions r = [] /\ Text.error r <> None) /\
  (Text.success r = false <->
   match send_text text with
   | Text.Language (Some lang_preds) =>
       exists prediction, prediction ∈ lang_preds /\
                          Text.lp_position prediction = Text.PositionNone
   | _ => True
   end).
Proof.
  unfold Text.analyze_text_with_hume.
  destruct (environ !! "HUME_API_KEY") as [[|c key]|]; try done.
  intros [= <-]. unfold Text.classify.
  destruct (send_text text) as [e|err| |[lang_preds|]]; try done.
  destruct (Text.collect lang_preds) as [e|predictions] eqn:Hcollect.
  - split; [done|]. split; [|done]. intros _. by eapply text_collect_inl.
  - split; [done|]. split; [done|]. intros (x & Hx & Hpos). exfalso.
    apply text_collect_inr in Hcollect.
    apply list_elem_of_lookup in Hx as [i Hi].
    destruct (Forall2_lookup_l _ _ _ _ _ Hcollect Hi) as (y & _ & Hy).
    unfold Text.pred_data in Hy. by rewrite Hpos in Hy.
Qed.

Lemma X8_text_success_witness :
  exists r,
    Text.analyze_text_with_hume SampleServer.environ SampleServer.language
      "good day" = Returns r /\
    Text.success r = true /\
    Text.total_predictions r = Some 2%nat.
Proof.
  assert (Hr : exists r,
             Text.analyze_text_with_hume SampleServer.environ
               SampleServer.language "good day" = Returns r /\
             Text.success r = true).
  { eexists. split; [vm_compute; reflexivity|reflexivity]. }
  destruct Hr as (r & Hr & Hs). exists r.
  destruct (X8_text_success _ _ _ r Hr Hs) as (lang_preds & Hanswer & Htotal & _).
  injection Hanswer as <-. exact (conj Hr (conj Hs Htotal)).
Defined.

Lemma X9_text_failures_witness :
  exists r,
    Text.analyze_text_with_hume SampleServer.environ SampleServer.broken
      "good day" = Returns r /\
    Text.success r = false /\
    Text.predictions r = [].
Proof.
  assert (Hr : exists r,
             Text.analyze_text_with_hume SampleServer.environ
               SampleServer.broken "good day" = Returns r /\
             Text.success r = false).
  { eexists. split; [vm_compute; reflexivity|reflexivity]. }
  destruct Hr as (r & Hr & Hs). exists r.
  destruct (X9_text_failures _ _ _ r Hr) as [Hfail _].
  exact (conj Hr (conj Hs (proj1 (Hfail Hs)))).
Defined.

(** ** [sorted_reverse_int] sorts *)

Section PySortedIntFacts.
Context {A : Type} (key : A -> Z).

Lemma insert_asc_int_perm x l : Permutation (insert_asc_int key x l) (x :: l).
Proof.
  induction l as [|y l IH]; simpl; [done|].
  destruct (key y <? key x); [|done].
  rewrite IH. apply perm_swap.
Qed.

Lemma sort_asc_int_perm l : Permutation (sort_asc_int key l) l.
Proof.
  induction l as [|x l IH]; simpl; [done|].
  by rewrite insert_asc_int_perm, IH.
Qed.

Lemma sorted_reverse_int_perm l : Permutation (sorted_reverse_int key l) l.
Proof.
  unfold sorted_reverse_int.
  by rewrite <- Permutation_rev, sort_asc_int_perm, <- Permutation_rev.
Qed.

Lemma insert_asc_int_sorted x l :
  StronglySorted (fun a b => key a <= key b) l ->
  StronglySorted (fun a b => key a <= key b) (insert_asc_int key x l).
Proof.
  induction 1 as [|y l Hs IH Hall]; simpl; [by repeat constructor|].
  destruct (Z.ltb_spec (key y) (key x)) as [Hlt|Hge].
  - constructor; [done|]. rewrite insert_asc_int_perm.
    constructor; [lia|done].
  - constructor; [by constructor|]. constructor; [done|].
    eapply Forall_impl; [exact Hall|]. intros z Hz. cbn in Hz. lia.
Qed.

Lemma sort_asc_int_sorted l :
  StronglySorted (fun a b => key a <= key b) (sort_asc_int key l).
Proof.
  induction l as [|x l IH]; simpl; [constructor|].
  by apply insert_asc_int_sorted.
Qed.

Lemma sorted_reverse_int_sorted l :
  StronglySorted (fun a b => key b <= key a) (sorted_reverse_int key l).
Proof.
  unfold sorted_reverse_int.
  generalize (sort_asc_int_sorted (rev l)).
  generalize (sort_asc_int key (rev l)). clear l.
  induction 1 as [|x l Hs IH Hall]; simpl; [constructor|].
  apply StronglySorted_app. split_and!; [|done|by repeat constructor].
  intros a b Ha ->%list_elem_of_singleton.
  apply list_elem_of_In, in_rev, list_elem_of_In in Ha.
  rewrite Forall_forall in Hall. by apply Hall.
Qed.

End PySortedIntFacts.

(** ** The summary of the statistics *)

Lemma overflow_threshold_large : 2 <= PyFormat.overflow_threshold.
Proof. apply Z.leb_le. vm_compute. reflexivity. Qed.

Lemma true_div_returns a b :
  0 < a <= b ->
  PyFormat.true_div a b = Returns (PyFormat.nearest_quotient a b).
Proof.
  intros Hab. unfold PyFormat.true_div.
  rewrite decide_False by lia. rewrite decide_False; [done|].
  pose proof overflow_threshold_large.
  rewrite !Z.abs_eq by lia. nia.
Qed.

Lemma sum_foldl a xs : foldl Z.add a xs = a + Stats.sum xs.
Proof.
  unfold Stats.sum. revert a. induction xs as [|x xs IH]; intros a; cbn; [lia|].
  rewrite (IH (a + x)), (IH (0 + x)). lia.
Qed.

Lemma sum_cons x xs : Stats.sum (x :: xs) = x + Stats.sum xs.
Proof. unfold Stats.sum at 1. cbn. rewrite sum_foldl. lia. Qed.

Lemma sum_nonneg xs : Forall (fun c => 0 < c) xs -> 0 <= Stats.sum xs.
Proof.
  induction 1 as [|y xs Hy Hxs IH]; [done|]. rewrite sum_cons. lia.
Qed.

Lemma sum_positive xs x :
  Forall (fun c => 0 < c) xs -> In x xs -> 0 < x <= Stats.sum xs.
Proof.
  induction 1 as [|y xs Hy Hxs IH]; [done|]. rewrite sum_cons.
  pose proof (sum_nonneg xs Hxs).
  intros [<-|Hin]; [lia|]. apply IH in Hin. lia.
Qed.

Lemma summary_rows_inv total_count items rows :
  Stats.summary_rows total_count items = Returns rows ->
  map (fun row => (Stats.name row.2, Stats.count row.2)) rows = items.
Proof.
  revert rows. induction items as [|[emotion count] items IH]; intros rows.
  - by intros [= <-].
  - cbn [Stats.summary_rows Stats.summary_row].
    destruct (PyFormat.true_div count total_count); [|done]. cbn [try_bind].
    destruct (Stats.summary_rows total_count items) as [rows'|]; [|done].
    cbn [try_bind]. intros [= <-]. cbn [map snd Stats.name Stats.count].
    by rewrite (IH rows').
Qed.

Lemma summary_rows_returns total_count items :
  Forall (fun item => 0 < item.2 <= total_count) items ->
  exists rows, Stats.summary_rows total_count items = Returns rows.
Proof.
  induction 1 as [|[emotion count] items Hitem _ [rows Hrows]].
  - by exists [].
  - cbn [Stats.summary_rows Stats.summary_row].
    rewrite (true_div_returns count total_count Hitem). cbn [try_bind].
    rewrite Hrows. cbn [try_bind]. by eexists.
Qed.

Lemma summary_rows_throws items item :
  Stats.summary_rows 0 (item :: items) = Throws (ZeroDivisionError "division by zero").
Proof. by destruct item. Qed.

(** The entries that the summary lists are counted entries. *)
Lemma listed_counts (counts : list (string * Z)) :
  Forall (fun c => 0 < c.2) counts ->
  Forall (fun item => 0 < item.2 <= Stats.sum (map snd counts))
         (take 5 (sorted_reverse_int snd counts)).
Proof.
  intros Hpos. apply Forall_forall. intros item Hin.
  apply sum_positive.
  - apply Forall_forall. intros c (y & <- & Hy)%list_elem_of_In%in_map_iff.
    rewrite Forall_forall in Hpos. by apply Hpos, list_elem_of_In.
  - apply in_map, list_elem_of_In.
    rewrite <- (sorted_reverse_int_perm snd counts).
    by apply (subseteq_take 5).
Qed.

Lemma generate_emotion_summary_returns (audio_stats : Stats.AudioStats) :
  Stats.emotion_counts audio_stats <> [] ->
  Forall (fun c => 0 < c.2) (Stats.emotion_counts audio_stats) ->
  exists r, Stats.generate_emotion_summary audio_stats = Returns r /\
            Stats.success r = true.
Proof.
  intros Hne Hpos. unfold Stats.generate_emotion_summary.
  destruct (Stats.emotion_counts audio_stats) as [|c0 cs] eqn:Hcounts; [done|].
  rewrite <- Hcounts in *.
  destruct (summary_rows_returns _ _ (listed_counts _ Hpos)) as (rows & ->).
  cbn [try_bind]. eexists. split; reflexivity.
Qed.

(** X10.  With statistics in which every count is positive, as the
    server keeps them, [generate_emotion_summary] does not raise: it
    succeeds and lists the five emotions with the highest counts, or all
    of them when there are fewer.  The listed entries are entries of
    [emotion_counts], in descending order of count, no emotion left out
    has a higher count than a listed one, and [total_detections] is the
    sum of all the counts, listed or not. *)
Theorem X10_summary_top_five (audio_stats : Stats.AudioStats) :
  let counts := Stats.emotion_counts audio_stats in
  counts <> [] ->
  Forall (fun c => 0 < c.2) counts ->
  exists r,
    Stats.generate_emotion_summary audio_stats = Returns r /\
    Stats.success r = true /\
    Stats.total_detections r = Some (Stats.sum (map snd counts)) /\
    let listed := map (fun e => (Stats.name e, Stats.count e)) (Stats.emotions r) in
    length listed = Nat.min 5 (length counts) /\
    StronglySorted (fun a b => b.2 <= a.2) listed /\
    exists rest,
      Permutation counts (listed ++ rest) /\
      forall a b, a ∈ listed -> b ∈ rest -> b.2 <= a.2.
Proof.
  intros counts Hne Hpos. unfold Stats.generate_emotion_summary. fold counts.
  destruct counts as [|c0 cs] eqn:Hcounts; [done|]. rewrite <- Hcounts in *.
  destruct (summary_rows_returns _ _ (listed_counts counts Hpos)) as (rows & Hrows).
  pose proof (summary_rows_inv _ _ _ Hrows) as Hmap.
  rewrite Hrows. cbn [try_bind]. eexists. split; [reflexivity|].
  cbn [Stats.success Stats.total_detections Stats.emotions].
  rewrite map_map. rewrite Hmap.
  pose proof (sorted_reverse_int_sorted snd counts) as Hsorted.
  pose proof (sorted_reverse_int_perm snd counts) as Hperm.
  rewrite <- (take_drop 5 (sorted_reverse_int snd counts)) in Hsorted, Hperm.
  apply StronglySorted_app in Hsorted as (Hcross & Htop & _).
  split_and!; try done.
  - rewrite length_take. by rewrite (Permutation_length (sorted_reverse_int_perm snd counts)).
  - exists (drop 5 (sorted_reverse_int snd counts)). split; [by symmetry|].
    intros a b Ha Hb. by apply Hcross.
Qed.

Lemma X10_summary_top_five_witness :
  let audio_stats := SampleServer.stats SampleServer.counts in
  exists r,
    Stats.generate_emotion_summary audio_stats = Returns r /\
    Stats.total_detections r = Some 14 /\
    map Stats.name (Stats.emotions r) = ["Doubt"; "Pride"; "Joy"; "Calm"; "Anger"].
Proof.
  intros audio_stats.
  destruct (X10_summary_top_five audio_stats) as (r & Hr & _ & Htotal & _).
  - discriminate.
  - repeat constructor.
  - exists r. split; [exact Hr|]. split; [exact Htotal|].
    assert (Hv : exists r', Stats.generate_emotion_summary audio_stats = Returns r'
              /\ map Stats.name (Stats.emotions r')
                 = ["Doubt"; "Pride"; "Joy"; "Calm"; "Anger"]).
    { eexists. split; [vm_compute; reflexivity|reflexivity]. }
    destruct Hv as (r' & Hr' & Hnames). rewrite Hr in Hr'.
    injection Hr' as ->. exact Hnames.
Defined.

(** X11.  [generate_emotion_summary] returns the failure
    ["No emotion data available"] exactly when no emotion was counted;
    with counts that sum to zero it raises [ZeroDivisionError]. *)
Theorem X11_summary_without_data (audio_stats : Stats.AudioStats) :
  let counts := Stats.emotion_counts audio_stats in
  let no_data :=
    {| Stats.success := false; Stats.error := Some "No emotion data available";
       Stats.summary := None; Stats.emotions := [];
       Stats.total_detections := None |} in
  (forall r, Stats.generate_emotion_summary audio_stats = Returns r ->
             (Stats.success r = false <-> counts = []) /\
             (counts = [] -> r = no_data)) /\
  (counts = [] -> Stats.generate_emotion_summary audio_stats = Returns no_data) /\
  (counts <> [] -> Stats.sum (map snd counts) = 0 ->
   Stats.generate_emotion_summary audio_stats =
     Throws (ZeroDivisionError "division by zero")).
Proof.
  intros counts no_data. unfold Stats.generate_emotion_summary. fold counts.
  destruct counts as [|c0 cs] eqn:Hcounts.
  { split_and!; [|done|done]. by intros r [= <-]. }
  rewrite <- Hcounts.
  assert (Hne : counts <> []) by by rewrite Hcounts.
  split_and!; [|done|].
  - intros r.
    destruct (Stats.summary_rows _ _) as [rows|]; [|done].
    cbn [try_bind]. by intros [= <-].
  - intros _ Hzero. rewrite Hzero.
    destruct (take 5 (sorted_reverse_int snd counts)) as [|item items] eqn:Ht.
    + apply (f_equal length) in Ht. rewrite length_take in Ht.
      rewrite (Permutation_length (sorted_reverse_int_perm snd counts)) in Ht.
      rewrite Hcounts in Ht. cbn in Ht. lia.
    + by rewrite summary_rows_throws.
Qed.

(** ** The recorded statistics *)

Lemma count_emotion_positive emotion_name counts :
  Forall (fun c => 0 < c.2) counts ->
  Forall (fun c => 0 < c.2) (count_emotion emotion_name counts).
Proof.
  induction 1 as [|[k v] counts Hk Hcounts IH]; cbn [count_emotion].
  - by repeat constructor.
  - destruct (decide (k = emotion_name)); constructor; cbn in *; try done. lia.
Qed.

Lemma count_emotion_keys emotion_name counts :
  map fst (count_emotion emotion_name counts) =
  if decide (emotion_name ∈ map fst counts) then map fst counts
  else map fst counts ++ [emotion_name].
Proof.
  induction counts as [|[k v] counts IH]; cbn [count_emotion map fst app].
  - rewrite decide_False; [done|]. by intros ?%elem_of_nil.
  - destruct (decide (k = emotion_name)) as [->|Hne].
    + rewrite decide_True; [done|]. by left.
    + cbn [map fst]. rewrite IH.
      destruct (decide (emotion_name ∈ map fst counts)) as [Hin|Hnin].
      * rewrite decide_True; [done|]. by right.
      * rewrite decide_False; [done|]. by intros [?|?]%elem_of_cons.
Qed.

Lemma count_emotion_NoDup emotion_name counts :
  NoDup (map fst counts) -> NoDup (map fst (count_emotion emotion_name counts)).
Proof.
  intros Hnd. rewrite count_emotion_keys.
  destruct (decide _) as [Hin|Hnin]; [done|].
  apply NoDup_app. split_and!; [done| |by apply NoDup_singleton].
  by intros x Hx ->%list_elem_of_singleton.
Qed.

Lemma count_emotion_sum emotion_name counts :
  Stats.sum (map snd (count_emotion emotion_name counts)) =
  Stats.sum (map snd counts) + 1.
Proof.
  induction counts as [|[k v] counts IH]; cbn [count_emotion]; [done|].
  destruct (decide (k = emotion_name)); cbn [map snd]; rewrite !sum_cons; lia.
Qed.

Lemma count_emotion_nonempty emotion_name counts :
  count_emotion emotion_name counts <> [].
Proof.
  destruct counts as [|[k v] counts]; cbn [count_emotion]; [done|].
  by destruct (decide (k = emotion_name)).
Qed.

(** What counting the emotions of one prediction keeps and changes. *)
Lemma count_emotions_spec (top : list Emotion) counts :
  let counts' :=
    foldl (fun counts emotion => count_emotion (name emotion) counts) counts top in
  (Forall (fun c => 0 < c.2) counts -> Forall (fun c => 0 < c.2) counts') /\
  (NoDup (map fst counts) -> NoDup (map fst counts')) /\
  Stats.sum (map snd counts') = Stats.sum (map snd counts) + Z.of_nat (length top) /\
  (counts' = [] <-> counts = [] /\ top = []).
Proof.
  revert counts. induction top as [|e top IH]; intros counts; cbn [foldl].
  - split_and!; try done; [cbn; lia|]. split; [done|]. by intros [? _].
  - destruct (IH (count_emotion (name e) counts)) as (Hpos & Hnd & Hsum & Hnil).
    split_and!.
    + intros H. by apply Hpos, count_emotion_positive.
    + intros H. by apply Hnd, count_emotion_NoDup.
    + rewrite Hsum, count_emotion_sum. cbn [length]. lia.
    + split; [|by intros [_ ?]]. intros [Hc _]%Hnil.
      by apply count_emotion_nonempty in Hc.
Qed.

Lemma first_with_emotions_Some preds pred :
  first_with_emotions preds = Some pred ->
  In pred preds /\ top_3_emotions pred <> [].
Proof.
  induction preds as [|p preds IH]; [done|]. cbn [first_with_emotions].
  destruct (top_3_emotions p) eqn:Htop.
  - intros H. destruct (IH H). split; [by right|done].
  - intros [= <-]. split; [by left|]. by rewrite Htop.
Qed.

(** One recorded analysis: the counts stay positive and distinct, one
    of the two counters of analyses grows by one, and the emotions
    counted are those of one prediction of a successful result. *)
Lemma record_analysis_spec hume_results audio_stats :
  let st' := record_analysis hume_results audio_stats in
  (Forall (fun c => 0 < c.2) (Stats.emotion_counts audio_stats) ->
   Forall (fun c => 0 < c.2) (Stats.emotion_counts st')) /\
  (NoDup (map fst (Stats.emotion_counts audio_stats)) ->
   NoDup (map fst (Stats.emotion_counts st'))) /\
  (Stats.successful_analyses st', Stats.failed_analyses st') =
    (if success hume_results
     then (Stats.successful_analyses audio_stats + 1, Stats.failed_analyses audio_stats)
     else (Stats.successful_analyses audio_stats, Stats.failed_analyses audio_stats + 1)) /\
  exists top,
    Stats.sum (map snd (Stats.emotion_counts st')) =
      Stats.sum (map snd (Stats.emotion_counts audio_stats)) + Z.of_nat (length top) /\
    (top = [] \/
     success hume_results = true /\
     exists pred, In pred (predictions hume_results) /\ top_3_emotions pred = top).
Proof.
  intros st'. subst st'. unfold record_analysis.
  destruct (success hume_results);
    cbn [Stats.emotion_counts Stats.successful_analyses Stats.failed_analyses].
  2: { split_and!; try done. exists []. split; [|by left].
       cbn [length Z.of_nat]. lia. }
  destruct (first_with_emotions (predictions hume_results)) as [pred|] eqn:Hfirst;
    cbn [Stats.emotion_counts Stats.successful_analyses Stats.failed_analyses].
  2: { split_and!; try done. exists []. split; [|by left].
       cbn [length Z.of_nat]. lia. }
  destruct (count_emotions_spec (top_3_emotions pred)
              (Stats.emotion_counts audio_stats)) as (Hpos & Hnd & Hsum & _).
  apply first_with_emotions_Some in Hfirst as [Hin _].
  split_and!; try done.
  exists (top_3_emotions pred). split; [done|]. right.
  split; [done|]. by exists pred.
Qed.

Lemma recorded_snoc results hume_results :
  recorded (results ++ [hume_results]) =
  record_analysis hume_results (recorded results).
Proof. unfold recorded. by rewrite foldl_app. Qed.

Lemma recorded_counts_positive results :
  Forall (fun c => 0 < c.2) (Stats.emotion_counts (recorded results)).
Proof.
  induction results as [|r results IH] using rev_ind; [constructor|].
  rewrite recorded_snoc. by apply record_analysis_spec.
Qed.

(** X12.  Whatever analyses the server records, starting from the
    initial statistics: every emotion in [emotion_counts] has a positive
    count and appears once, [successful_analyses] counts the results
    that were successes and [failed_analyses] the others. *)
Theorem X12_recorded_statistics (results : list AnalysisResult) :
  let audio_stats := recorded results in
  Forall (fun c => 0 < c.2) (Stats.emotion_counts audio_stats) /\
  NoDup (map fst (Stats.emotion_counts audio_stats)) /\
  Stats.successful_analyses audio_stats =
    Z.of_nat (length (List.filter success results)) /\
  Stats.failed_analyses audio_stats =
    Z.of_nat (length (List.filter (fun r => negb (success r)) results)).
Proof.
  induction results as [|r results IH] using rev_ind.
  - cbn. split_and!; [constructor|constructor|done|done].
  - cbn zeta in *. rewrite recorded_snoc.
    destruct IH as (Hpos & Hnd & Hok & Hfailed).
    destruct (record_analysis_spec r (recorded results))
      as (Hpos' & Hnd' & Hcounters & _).
    split_and!; [by apply Hpos'|by apply Hnd'| |].
    + rewrite List.filter_app, length_app. cbn [List.filter].
      destruct (success r); injection Hcounters as -> _; cbn [length]; lia.
    + rewrite List.filter_app, length_app. cbn [List.filter].
      destruct (success r); injection Hcounters as _ ->; cbn [length negb]; lia.
Qed.

Lemma analysed_top_3 r pred :
  analysed r -> In pred (predictions r) -> (length (top_3_emotions pred) <= 3)%nat.
Proof.
  intros (hume & p & w & Hrun) Hin.
  assert (H : Forall (fun pred => (length (top_3_emotions pred) <= 3)%nat)
                     (predictions r)).
  { eapply (predictions_of_run _ hume p w r); [| |exact Hrun].
    - intros received. unfold pred_data. cbn [top_3_emotions].
      rewrite length_map, length_take. lia.
    - by intros i pred'. }
  rewrite Forall_forall in H. by apply H, list_elem_of_In.
Qed.

(** X13.  When the recorded results are results of
    [analyze_audio_with_hume], each success adds at most three
    detections: the sum of the counts is at most three times
    [successful_analyses]; a failure adds none. *)
Theorem X13_three_detections_per_success (results : list AnalysisResult) :
  Forall analysed results ->
  let audio_stats := recorded results in
  0 <= Stats.sum (map snd (Stats.emotion_counts audio_stats))
    <= 3 * Stats.successful_analyses audio_stats.
Proof.
  induction results as [|r results IH] using rev_ind; intros Hall; [done|].
  apply Forall_app in Hall as [Hall Hr%Forall_inv].
  specialize (IH Hall). cbn zeta in *. rewrite recorded_snoc.
  destruct (record_analysis_spec r (recorded results))
    as (_ & _ & Hcounters & top & -> & Htop).
  destruct Htop as [->|(Hs & pred & Hin & <-)].
  - cbn [length Z.of_nat]. destruct (success r); injection Hcounters as -> _; lia.
  - rewrite Hs in Hcounters. injection Hcounters as -> _.
    pose proof (analysed_top_3 r pred Hr Hin). lia.
Qed.

(** X14.  On statistics whose counts were recorded by the server,
    [save_emotion_memory] never raises, whatever the user, the
    credentials and the answer of the service; it posts at most one
    request, and it reports a success only if at least one emotion has
    been counted. *)
Theorem X14_save_never_raises (omi : nat -> Omi.HttpReply) lower uid s results :
  Stats.emotion_counts (Omi.audio_stats s) =
    Stats.emotion_counts (recorded results) ->
  exists r s',
    Omi.save_emotion_memory omi lower uid s = (Returns r, s') /\
    (Omi.posts s' = Omi.posts s \/
     exists request, Omi.posts s' = Omi.posts s ++ [request]) /\
    (Omi.success r = true -> Stats.emotion_counts (Omi.audio_stats s) <> []).
Proof.
  intros Hcounts. unfold Omi.save_emotion_memory.
  destruct (Omi.target_uid_of uid s) as [target|]; [|by eauto 6].
  destruct (Stats.emotion_counts (Omi.audio_stats s)) as [|c0 cs] eqn:Hc.
  { unfold Stats.generate_emotion_summary. rewrite Hc. cbn. eauto 6. }
  destruct (generate_emotion_summary_returns (Omi.audio_stats s))
    as (summary & -> & ->).
  { by rewrite Hc. }
  { rewrite Hc, Hcounts. apply recorded_counts_positive. }
  cbn [negb].
  destruct (Omi.create_memory omi lower target _ _ s) as [r s'] eqn:Hcreate.
  exists r, s'. split; [done|]. split; [|done].
  revert Hcreate. unfold Omi.create_memory.
  destruct (Omi.getenv_truthy s "OMI_APP_ID");
    [destruct (Omi.getenv_truthy s "OMI_API_KEY")|];
    [|intros [= _ <-]; by left..].
  destruct (Stats.emotions summary); [intros [= _ <-]; by left|].
  destruct (omi _) as [e|status_code body];
    [|destruct (decide (status_code = 200))];
    intros [= _ <-]; right; by eexists.
Qed.

Lemma sample_result_analysed : analysed SampleServer.result.
Proof.
  exists Sample.third_fails, "rec.wav", (Sample.world (Sample.buffer 9001)).
  vm_compute. reflexivity.
Qed.

Lemma X13_three_detections_per_success_witness :
  let audio_stats := recorded [SampleServer.result; SampleServer.result] in
  0 <= Stats.sum (map snd (Stats.emotion_counts audio_stats))
    <= 3 * Stats.successful_analyses audio_stats.
Proof.
  apply (X13_three_detections_per_success
           [SampleServer.result; SampleServer.result]).
  repeat constructor; apply sample_result_analysed.
Defined.

Lemma X14_save_never_raises_witness :
  let audio_stats := recorded [SampleServer.result; SampleServer.result] in
  let s := SampleServer.server (Stats.emotion_counts audio_stats) in
  exists r s',
    Omi.save_emotion_memory SampleServer.accepts (fun name => name) None s
      = (Returns r, s') /\
    (Omi.posts s' = Omi.posts s \/
     exists request, Omi.posts s' = Omi.posts s ++ [request]) /\
    (Omi.success r = true -> Stats.emotion_counts (Omi.audio_stats s) <> []).
Proof.
  intros audio_stats s.
  apply (X14_save_never_raises SampleServer.accepts (fun name => name) None s
           [SampleServer.result; SampleServer.result]).
  reflexivity.
Defined.

(** ** Notifications *)





(** X15.  [send_notification] posts one request when both credentials
    are configured and none otherwise; it reports a success exactly when
    the service answers with a status from 200 to 299, and only then
    does it touch the statistics: the notification is put in front of
    [recent_notifications], of which the first ten are kept. *)
Theorem X15_send_notification (omi : nat -> Omi.HttpReply) uid message s :
  let r := (Omi.send_notification omi uid message s).1 in
  let s' := (Omi.send_notification omi uid message s).2 in
  let sent :=
    {| Stats.timestamp := Omi.utc_now s; Stats.uid := uid;
       Stats.message := message |} in
  (Omi.success r = true <->
   omi_configured s /\
   exists status_code text,
     omi (length (Omi.posts s)) = Omi.Response status_code text /\
     200 <= status_code < 300) /\
  (omi_configured s ->
   exists request, Omi.posts s' = Omi.posts s ++ [request] /\
                   Omi.json request = None) /\
  (~ omi_configured s -> s' = s) /\
  (Omi.success r = false -> Omi.audio_stats s' = Omi.audio_stats s) /\
  (Omi.success r = true ->
   Stats.recent_notifications (Omi.audio_stats s') =
     take 10 (sent :: Stats.recent_notifications (Omi.audio_stats s)) /\
   Stats.emotion_counts (Omi.audio_stats s') =
     Stats.emotion_counts (Omi.audio_stats s) /\
   Stats.last_uid (Omi.audio_stats s') = Stats.last_uid (Omi.audio_stats s)).
Proof.
  intros r s' sent. subst r s'. unfold Omi.send_notification, omi_configured.
  destruct (Omi.getenv_truthy s "OMI_APP_ID") as [app|];
    [destruct (Omi.getenv_truthy s "OMI_API_KEY") as [key|]|].
  2,3: cbn; split_and!; try done;
       [split; [done|]; intros [[[? ?] [? ?]] _]; done
       |intros [[? ?] [? ?]]; done].
  destruct (omi (length (Omi.posts s))) as [e|status_code text] eqn:Hreply.
  - cbn. split_and!; try done.
    + split; [done|]. by intros (_ & ? & ? & ? & _).
    + intros _. eauto.
    + intros Hn. exfalso. apply Hn. eauto.
  - destruct ((200 <=? status_code) && (status_code <? 300)) eqn:Hok.
    + cbn. split_and!; try done.
      * split; [|done]. intros _. split; [eauto|].
        exists status_code, text. split; [done|]. lia.
      * intros _. eauto.
      * intros Hn. exfalso. apply Hn. eauto.
    + cbn. split_and!; try done.
      * split; [done|]. intros (_ & st & tx & [= <- <-] & Hr). lia.
      * intros _. eauto.
      * intros Hn. exfalso. apply Hn. eauto.
Qed.

Lemma X15_send_notification_witness :
  let s := SampleServer.server [] in
  let out := Omi.send_notification (fun _ => Omi.Response 204 "") "user" "hello" s in
  Omi.success out.1 = true /\
  Stats.recent_notifications (Omi.audio_stats out.2) =
    [{| Stats.timestamp := "2024-01-01 00:00:00 UTC"; Stats.uid := "user";
        Stats.message := "hello" |}].
Proof.
  intros s out.
  assert (Hs : Omi.success out.1 = true) by (vm_compute; reflexivity).
  split; [exact Hs|].
  pose proof (X15_send_notification (fun _ => Omi.Response 204 "") "user" "hello" s)
    as (_ & _ & _ & _ & Hrecent).
  destruct (Hrecent Hs) as (Hr & _). exact Hr.
Defined.

Lemma send_notification_recent (omi : nat -> Omi.HttpReply) uid message s :
  let s' := (Omi.send_notification omi uid message s).2 in
  let old := Stats.recent_notifications (Omi.audio_stats s) in
  Stats.recent_notifications (Omi.audio_stats s') = old \/
  Stats.recent_notifications (Omi.audio_stats s') =
    take 10 ({| Stats.timestamp := Omi.utc_now s; Stats.uid := uid;
                Stats.message := message |} :: old).
Proof.
  unfold Omi.send_notification.
  destruct (Omi.getenv_truthy s "OMI_APP_ID") as [app|];
    [destruct (Omi.getenv_truthy s "OMI_API_KEY") as [key|]|]; try by left.
  destruct (omi (length (Omi.posts s))) as [e|status_code text]; [by left|].
  destruct ((200 <=? status_code) && (status_code <? 300)); [by right|by left].
Qed.

(** X16.  Over any series of notifications, [recent_notifications]
    stays within ten entries once it is, and it only ever holds entries
    that were there before or that one of the calls of the series
    sent. *)
Theorem X16_recent_notifications_bounded (omi : nat -> Omi.HttpReply)
    (calls : list (string * string)) s :
  let recent s := Stats.recent_notifications (Omi.audio_stats s) in
  (length (recent s) <= 10)%nat ->
  (length (recent (send_notifications omi calls s)) <= 10)%nat /\
  forall n, n ∈ recent (send_notifications omi calls s) ->
            n ∈ recent s \/ (Stats.uid n, Stats.message n) ∈ calls.
Proof.
  intros recent. revert s. induction calls as [|[uid message] calls IH]; intros s Hlen.
  - split; [done|]. intros n Hn. by left.
  - cbn [send_notifications].
    pose proof (send_notification_recent omi uid message s) as Hstep.
    cbn zeta in Hstep. fold (recent s) in Hstep.
    set (s1 := (Omi.send_notification omi uid message s).2) in *.
    fold (recent s1) in Hstep.
    assert (Hlen1 : (length (recent s1) <= 10)%nat).
    { destruct Hstep as [-> | ->]; [done|]. rewrite length_take. lia. }
    destruct (IH s1 Hlen1) as [Hbound Hfrom]. split; [done|].
    intros n Hn. destruct (Hfrom n Hn) as [Hold | Hcall].
    + destruct Hstep as [Heq | Heq]; rewrite Heq in Hold.
      * by left.
      * apply elem_of_take in Hold as (i & Hi & _).
        apply list_elem_of_lookup_2 in Hi. apply elem_of_cons in Hi as [-> | Hi].
        -- right. by left.
        -- by left.
    + right. by right.
Qed.

Lemma X16_recent_notifications_bounded_witness :
  let s := SampleServer.server [] in
  let calls := map (fun k => ("user", pretty k)) (seq 0 12) in
  (length (Stats.recent_notifications
             (Omi.audio_stats
                (send_notifications SampleServer.accepts calls s)))
   <= 10)%nat.
Proof.
  intros s calls.
  apply (X16_recent_notifications_bounded SampleServer.accepts calls s).
  apply Nat.le_0_l.
Defined.



(** ** Memories *)

(** X18.  [create_memory] posts one memory when both credentials are
    configured and there is at least one emotion, and nothing otherwise;
    it reports a success exactly when the service answers with status
    200 (any other status, 201 included, is reported as an API error),
    and it never changes the statistics.  The memory carries the given
    text and is tagged with the lower-cased name of the first emotion. *)
Theorem X18_create_memory (omi : nat -> Omi.HttpReply) lower uid text emotions s :
  let r := (Omi.create_memory omi lower uid text emotions s).1 in
  let s' := (Omi.create_memory omi lower uid text emotions s).2 in
  (Omi.success r = true <->
   omi_configured s /\ emotions <> [] /\
   exists body, omi (length (Omi.posts s)) = Omi.Response 200 body) /\
  (omi_configured s -> emotions = [] ->
   r = Omi.failed "list index out of range" /\ s' = s) /\
  (~ omi_configured s ->
   r = Omi.failed "OMI_APP_ID or OMI_API_KEY not configured" /\ s' = s) /\
  (forall first rest, omi_configured s -> emotions = first :: rest ->
   exists request data,
     Omi.posts s' = Omi.posts s ++ [request] /\
     Omi.json request = Some data /\
     Omi.text data = text /\
     map Omi.tags (Omi.memories data) =
       [["emotion"; "audio_analysis"; lower (Stats.name first)]]) /\
  Omi.audio_stats s' = Omi.audio_stats s.
Proof.
  intros r s'. subst r s'. unfold Omi.create_memory, omi_configured.
  destruct (Omi.getenv_truthy s "OMI_APP_ID") as [app|];
    [destruct (Omi.getenv_truthy s "OMI_API_KEY") as [key|]|].
  2,3: cbn; split_and!; try done;
       [split; [done|]; intros [[[? ?] [? ?]] _]; done
       |intros [[? ?] [? ?]]; done
       |intros ? ? [[? ?] [? ?]]; done].
  destruct emotions as [|first rest].
  { cbn. split_and!; try done.
    - split; [done|]. by intros (_ & ? & _).
    - intros Hn. exfalso. apply Hn. eauto. }
  destruct (omi (length (Omi.posts s))) as [e|status_code body] eqn:Hreply.
  - cbn. split_and!; try done.
    + split; [done|]. by intros (_ & _ & ? & ?).
    + intros Hn. exfalso. apply Hn. eauto.
    + intros f r' _ [= <- <-]. eexists _, _. split_and!; reflexivity.
  - destruct (decide (status_code = 200)) as [->|Hne].
    + cbn. split_and!; try done.
      * split; [|done]. intros _. split; [eauto|]. split; [done|]. eauto.
      * intros Hn. exfalso. apply Hn. eauto.
      * intros f r' _ [= <- <-]. eexists _, _. split_and!; reflexivity.
    + cbn. split_and!; try done.
      * split; [done|]. intros (_ & _ & b & [= -> _]). done.
      * intros Hn. exfalso. apply Hn. eauto.
      * intros f r' _ [= <- <-]. eexists _, _. split_and!; reflexivity.
Qed.

Lemma generate_emotion_summary_success audio_stats summary :
  Stats.generate_emotion_summary audio_stats = Returns summary ->
  Stats.success summary = true ->
  exists text first rest,
    Stats.summary summary = Some text /\
    Stats.emotions summary = first :: rest /\
    In (Stats.name first, Stats.count first) (Stats.emotion_counts audio_stats) /\
    forall item, In item (Stats.emotion_counts audio_stats) ->
                 item.2 <= Stats.count first.
Proof.
  unfold Stats.generate_emotion_summary.
  destruct (Stats.emotion_counts audio_stats) as [|c0 cs] eqn:Hcounts;
    [by intros [= <-]|].
  rewrite <- Hcounts. set (counts := Stats.emotion_counts audio_stats) in *.
  destruct (Stats.summary_rows _ _) as [rows|] eqn:Hrows; [|done].
  pose proof (summary_rows_inv _ _ _ Hrows) as Hmap.
  cbn [try_bind]. intros [= <-] _. cbn [Stats.summary Stats.emotions].
  pose proof (sorted_reverse_int_sorted snd counts) as Hsorted.
  pose proof (sorted_reverse_int_perm snd counts) as Hperm.
  destruct (sorted_reverse_int snd counts) as [|top others] eqn:Hsr.
  { apply Permutation_length in Hperm. rewrite Hcounts in Hperm. done. }
  cbn [take] in Hmap. destruct rows as [|row rows]; [done|].
  cbn [map] in Hmap. injection Hmap as Htop Hrest.
  eexists _, row.2, (map snd rows). split_and!; [done|done| |].
  - rewrite Htop. apply (Permutation_in _ Hperm). by left.
  - intros item Hitem. apply (Permutation_in _ (Permutation_sym Hperm)) in Hitem.
    apply StronglySorted_inv in Hsorted as [_ Hall].
    destruct Hitem as [<-|Hitem].
    + rewrite <- Htop. cbn. lia.
    + rewrite Forall_forall in Hall. apply list_elem_of_In, Hall in Hitem.
      rewrite <- Htop in Hitem. cbn in *. lia.
Qed.

(** X19.  [save_emotion_memory] acts for the user it is given, or for
    the last active user when it is given none or an empty one.  With no
    user at all, or with no emotion counted, it returns a failure that
    says so and posts nothing. *)
Theorem X19_save_without_user_or_data (omi : nat -> Omi.HttpReply) lower uid s :
  let out := Omi.save_emotion_memory omi lower uid s in
  (Omi.target_uid_of uid s =
     match uid with
     | Some (String c u) => Some (String c u)
     | _ => match Stats.last_uid (Omi.audio_stats s) with
            | Some (String c u) => Some (String c u)
            | _ => None
            end
     end) /\
  (Omi.target_uid_of uid s = None ->
   out = (Returns (Omi.failed "No user ID available"), s)) /\
  (Omi.target_uid_of uid s <> None ->
   Stats.emotion_counts (Omi.audio_stats s) = [] ->
   out = (Returns (Omi.failed "No emotion data available"), s)).
Proof.
  intros out. subst out. unfold Omi.save_emotion_memory. split_and!.
  - unfold Omi.target_uid_of.
    destruct uid as [[|c u]|]; try done;
      by destruct (Stats.last_uid (Omi.audio_stats s)) as [[|c u]|].
  - by intros ->.
  - intros Htarget Hcounts.
    destruct (Omi.target_uid_of uid s) as [t|]; [|done].
    unfold Stats.generate_emotion_summary. by rewrite Hcounts.
Qed.

(** X20.  With a user, at least one emotion counted, every count
    positive and both credentials, [save_emotion_memory] does not raise
    and posts exactly one memory: to the
    address of that user, with the summary of the statistics as its
    text, tagged with the lower-cased name of an emotion that no other
    emotion outnumbers; the statistics are left as they are. *)
Theorem X20_save_posts_summary (omi : nat -> Omi.HttpReply) lower uid s target :
  Omi.target_uid_of uid s = Some target ->
  Stats.emotion_counts (Omi.audio_stats s) <> [] ->
  Forall (fun c => 0 < c.2) (Stats.emotion_counts (Omi.audio_stats s)) ->
  omi_configured s ->
  exists r s' summary request data top app,
    Omi.save_emotion_memory omi lower uid s = (Returns r, s') /\
    Stats.generate_emotion_summary (Omi.audio_stats s) = Returns summary /\
    Omi.posts s' = Omi.posts s ++ [request] /\
    Omi.getenv_truthy s "OMI_APP_ID" = Some app /\
    Omi.url request =
      "https://api.omi.me/v2/integrations/" +:+ app +:+ "/user/memories?uid="
      +:+ target /\
    Omi.json request = Some data /\
    Some (Omi.text data) = Stats.summary summary /\
    map Omi.tags (Omi.memories data) =
      [["emotion"; "audio_analysis"; lower top.1]] /\
    In top (Stats.emotion_counts (Omi.audio_stats s)) /\
    (forall item, In item (Stats.emotion_counts (Omi.audio_stats s)) ->
                  item.2 <= top.2) /\
    Omi.audio_stats s' = Omi.audio_stats s /\
    (Omi.success r = true <->
     exists body, omi (length (Omi.posts s)) = Omi.Response 200 body).
Proof.
  intros Htarget Hcounts Htotal [[app Happ] [key Hkey]].
  destruct (generate_emotion_summary_returns (Omi.audio_stats s) Hcounts Htotal)
    as (summary & Hsum & Hs).
  destruct (generate_emotion_summary_success _ _ Hsum Hs)
    as (text & first & rest & Htext & Hem & Hin & Hmax).
  pose (data :=
    {| Omi.memories :=
         [{| Omi.content :=
               "Emotion detected: "
               +:+ PyFormat.join ", "
                     (map Omi.emotion_label (take 3 (first :: rest)));
             Omi.tags := ["emotion"; "audio_analysis"; lower (Stats.name first)] |}];
       Omi.text := text; Omi.text_source := "other";
       Omi.text_source_spec := "emotion_ai_analysis" |}).
  pose (request :=
    {| Omi.url := "https://api.omi.me/v2/integrations/" +:+ app
                  +:+ "/user/memories?uid=" +:+ target;
       Omi.headers := [("Authorization", "Bearer " +:+ key);
                       ("Content-Type", "application/json")];
       Omi.json := Some data |}).
  pose (r := match omi (length (Omi.posts s)) with
             | Omi.PostRaises e => Omi.failed e
             | Omi.Response status_code body =>
                 if decide (status_code = 200)
                 then Omi.done_ "Memory created successfully"
                 else Omi.failed (Omi.api_error status_code body)
             end).
  assert (Hrun : Omi.save_emotion_memory omi lower uid s =
                 (Returns r, Omi.with_post s request)).
  { unfold Omi.save_emotion_memory. rewrite Htarget, Hsum, Hs. cbn [negb].
    rewrite Htext, Hem. cbn [default].
    unfold Omi.create_memory. rewrite Happ, Hkey. subst r.
    destruct (omi (length (Omi.posts s))) as [e|status_code body]; [done|].
    by destruct (decide (status_code = 200)). }
  exists r, (Omi.with_post s request), summary, request, data,
    (Stats.name first, Stats.count first), app.
  split_and!; try done.
  subst r. destruct (omi (length (Omi.posts s))) as [e|status_code body].
  - split; [done|]. by intros [? ?].
  - destruct (decide (status_code = 200)) as [->|Hne].
    + split; [eauto|done].
    + split; [done|]. intros [b [= -> _]]. done.
Qed.

Lemma X20_save_posts_summary_witness :
  let s := SampleServer.server SampleServer.counts in
  exists r s' request,
    Omi.save_emotion_memory SampleServer.accepts (fun name => name) None s
      = (Returns r, s') /\
    Omi.success r = true /\
    Omi.posts s' = [request] /\
    Omi.url request =
      "https://api.omi.me/v2/integrations/app/user/memories?uid=last-user".
Proof.
  intros s.
  destruct (X20_save_posts_summary SampleServer.accepts (fun name => name)
              None s "last-user")
    as (r & s' & summary & request & data & top & app
        & Hrun & _ & Hposts & Happ & Hurl & _ & _ & _ & _ & _ & _ & Hok).
  - reflexivity.
  - discriminate.
  - repeat constructor.
  - split; eexists; vm_compute; reflexivity.
  - exists r, s', request. split; [exact Hrun|]. split.
    + apply Hok. eexists. reflexivity.
    + split; [exact Hposts|]. rewrite Hurl.
      assert (Happ' : Omi.getenv_truthy s "OMI_APP_ID" = Some "app")
        by (vm_compute; reflexivity).
      rewrite Happ' in Happ. injection Happ as <-. reflexivity.
Defined.
